(** * gpstrace: a simulated GPS travel trace

    A shallow embedding of [gpstrace.py] (Python 2) and the properties of
    its trace engine, route selector and configuration parsers.

    Conventions of the embedding:
    - a Python [str] is a [string]; a Python [int]/[long] is a [Z];
    - a Python [float] is a primitive binary64 [float], compared with the
      IEEE comparisons [PrimFloat.ltb] and [PrimFloat.leb];
    - a [datetime] is the number of seconds since 0001-01-01 00:00:00 (a
      [Z]), a [timedelta] a number of seconds (a [Z]); the bounds of
      [datetime] (years 1 to 9999) are not modelled;
    - an exception is a value of [exn], a call that may raise returns a
      [result];
    - the process-wide random source is an explicit stream of raw draws;
    - a [while] loop that may run forever takes fuel and answers [None]
      when the fuel is used up. *)

From Stdlib Require Import ZArith List String Ascii Bool Lia Floats Sorted.
From stdpp Require Import gmap strings list pretty.
From Equations Require Import Equations.
Import ListNotations.
Local Open Scope Z_scope.

(** ** Exceptions and results *)

Inductive exn : Type :=
| TypeError (msg : string)
| ValueError (msg : string)
| NoOptionError (option_name section : string)
| NoAvailableRouteError (msg : string).

Inductive result (A : Type) : Type :=
| Return (a : A)
| Raise (e : exn).
Arguments Return {A} a.
Arguments Raise {A} e.

Definition result_bind {A B} (r : result A) (k : A -> result B) : result B :=
  match r with
  | Return a => k a
  | Raise e => Raise e
  end.

Definition result_map {A B} (f : A -> B) (r : result A) : result B :=
  result_bind r (fun a => Return (f a)).

(** ** Python strings *)

Module Str.

(** [s.replace(' ', '')] *)
Fixpoint remove_spaces (s : string) : string :=
  match s with
  | EmptyString => EmptyString
  | String c s' =>
      if Ascii.eqb c " " then remove_spaces s' else String c (remove_spaces s')
  end.

(** [s.split(sep)] for a one-character separator: never the empty list. *)
Fixpoint split (sep : ascii) (s : string) : list string :=
  match s with
  | EmptyString => [EmptyString]
  | String c s' =>
      if Ascii.eqb c sep then EmptyString :: split sep s'
      else match split sep s' with
           | p :: ps => String c p :: ps
           | [] => [String c EmptyString]
           end
  end.

(** [s.endswith(c)] for a one-character suffix. *)
Fixpoint endswith (s : string) (c : ascii) : bool :=
  match s with
  | EmptyString => false
  | String a EmptyString => Ascii.eqb a c
  | String _ s' => endswith s' c
  end.

(** [s[:-1]] *)
Fixpoint init (s : string) : string :=
  match s with
  | EmptyString => EmptyString
  | String _ EmptyString => EmptyString
  | String a s' => String a (init s')
  end.

(** The characters [str.isspace] accepts: space, and tab to carriage return. *)
Definition is_space (c : ascii) : bool :=
  let n := nat_of_ascii c in
  Nat.eqb n 32 || (Nat.leb 9 n && Nat.leb n 13).

Definition is_digit (c : ascii) : bool :=
  let n := nat_of_ascii c in
  Nat.leb 48 n && Nat.leb n 57.

Definition digit_value (c : ascii) : Z := Z.of_nat (nat_of_ascii c) - 48.

Fixpoint lstrip (s : string) : string :=
  match s with
  | EmptyString => EmptyString
  | String c s' => if is_space c then lstrip s' else s
  end.

Fixpoint all_space (s : string) : bool :=
  match s with
  | EmptyString => true
  | String c s' => is_space c && all_space s'
  end.

(** A run of decimal digits, then only white space. *)
Fixpoint digits (acc : Z) (s : string) : option Z :=
  match s with
  | EmptyString => Some acc
  | String c s' =>
      if is_digit c then digits (10 * acc + digit_value c) s'
      else if all_space s then Some acc else None
  end.

Definition unsigned (s : string) : option Z :=
  match s with
  | String c _ => if is_digit c then digits 0 s else None
  | EmptyString => None
  end.

(** The builtin [int(s)] on a [str], as documented: a possibly signed
    decimal number, possibly embedded in white space; [None] stands for
    the [ValueError] it raises on anything else. *)
Definition int (s : string) : option Z :=
  match lstrip s with
  | String "+" s' => unsigned s'
  | String "-" s' => option_map Z.opp (unsigned s')
  | s' => unsigned s'
  end.

End Str.

(** ** Data model *)

Module Location.

(** [oid] stands for the identity of the Python object: [Location] defines
    no [__eq__], so [==] on two locations compares identities. *)
Record t : Type := mk {
  oid : nat;
  name : string;
  latitude : float;
  longitude : float;
  visit_time : Z * Z
}.

Definition eqb (a b : t) : bool := Nat.eqb (oid a) (oid b).

End Location.

(** The Python values the constructors and [trace] test with [isinstance]. *)
#[warning="-register-all"]
Inductive value : Type :=
| VNone
| VInt (z : Z)
| VFloat (f : float)
| VStr (s : string)
| VTuple (vs : list value)
| VList (vs : list value)
| VLocation (l : Location.t)
| VDatetime (t : Z).

(** Truth value of an object, as [not x], [x and y] and [x or y] test it. *)
Definition truthy (v : value) : bool :=
  match v with
  | VNone => false
  | VInt z => negb (Z.eqb z 0)
  | VFloat f => negb (PrimFloat.eqb f 0%float)
  | VStr s => negb (String.eqb s EmptyString)
  | VTuple vs | VList vs => match vs with [] => false | _ => true end
  | VLocation _ | VDatetime _ => true
  end.

Definition type_name (v : value) : string :=
  match v with
  | VNone => "NoneType"
  | VInt _ => "int"
  | VFloat _ => "float"
  | VStr _ => "str"
  | VTuple _ => "tuple"
  | VList _ => "list"
  | VLocation _ => "Location"
  | VDatetime _ => "datetime.datetime"
  end.

(** [range(n)] *)
Definition range (n : nat) : list Z := map Z.of_nat (seq 0 n).

Module Route.

Record t : Type := mk {
  name : string;
  start_at : Location.t;
  waypoints : list Location.t;
  end_at : Location.t;
  probability : float;
  weekdays : list Z
}.

(** The loop over [enumerate(self.waypoints)]. *)
Fixpoint check_waypoints (name : string) (i : nat) (wps : list value)
  : result (list Location.t) :=
  match wps with
  | [] => Return []
  | VLocation l :: rest =>
      result_map (cons l) (check_waypoints name (S i) rest)
  | _ :: _ =>
      Raise (TypeError ("Waypoint at index " +:+ pretty i +:+ " of route '"
                        +:+ name +:+ "' must be a Location instance"))
  end.

(** [Route.__init__]. [weekdays] is [None] or a tuple of integers. *)
Definition init (name : string) (start_at end_at waypoints probability : value)
    (weekdays : option (list Z)) : result t :=
  match start_at with
  | VLocation start_loc =>
      if truthy waypoints
         && negb (match waypoints with VList _ => true | _ => false end)
      then Raise (TypeError "waypoints must be a list of Location instances")
      else
        match end_at with
        | VLocation end_loc =>
            match probability with
            | VFloat p =>
                if PrimFloat.ltb p 0%float && PrimFloat.ltb 1%float p
                then Raise (TypeError "probability must be a floating point number between 0.0 and 1.0")
                else
                  let wps := match waypoints with
                             | VList ((_ :: _) as l) => l
                             | _ => []
                             end in
                  result_bind (check_waypoints name 0 wps) (fun wl =>
                  Return {| name := name;
                            start_at := start_loc;
                            waypoints := wl;
                            end_at := end_loc;
                            probability := p;
                            weekdays := match weekdays with
                                        | Some ((_ :: _) as ws) => ws
                                        | _ => range 8
                                        end |})
            | _ => Raise (TypeError "probability must be a floating point number between 0.0 and 1.0")
            end
        | _ => Raise (TypeError "end_at must be a Location instance")
        end
  | _ => Raise (TypeError "start_at must be a Location instance")
  end.

End Route.

(** ** The travel tracer *)

Definition VISIT_PING_TIME : Z := 10 * 60.

(** A trace point: the visited location and the timestamp of the visit. *)
Definition point : Type := Location.t * Z.

(** [datetime.weekday()]: day 0 of the calendar (0001-01-01) is a Monday. *)
Definition weekday (t : Z) : Z := (t / 86400) mod 7.

(** *** The random source

    [rand] is the stream of raw draws the generator will deliver; a call of
    [random.randint] consumes the first one. *)
Definition rand : Type := nat -> Z.

Definition rand_tail (g : rand) : rand := fun n => g (S n).

(** [random.randint(a, b)]: an integer N with a <= N <= b, and a
    [ValueError] on an empty range. *)
Definition randint (a b : Z) (g : rand) : result (Z * rand) :=
  if b <? a
  then Raise (ValueError ("empty range for randrange() (" +:+ pretty a +:+ ","
                          +:+ pretty (b + 1) +:+ ", " +:+ pretty (b + 1 - a) +:+ ")"))
  else Return (a + g 0%nat mod (b - a + 1), rand_tail g).

(** [Location.random_visit], in seconds. *)
Definition random_visit (l : Location.t) (g : rand) : result (Z * rand) :=
  randint (fst (Location.visit_time l)) (snd (Location.visit_time l)) g.

(** *** Configuration parsers *)

(** The body of the loop of [parse_visit_time]; [None] is the [ValueError]
    of [int]. *)
Definition parse_visit_part (part : string) : option Z :=
  if Str.endswith part "h" then option_map (fun n => n * 3600) (Str.int (Str.init part))
  else if Str.endswith part "m" then option_map (fun n => n * 60) (Str.int (Str.init part))
  else if Str.endswith part "s" then Str.int (Str.init part)
  else Str.int part.

Fixpoint parse_visit_parts (parts : list string) : option (list Z) :=
  match parts with
  | [] => Some []
  | part :: rest =>
      match parse_visit_part part with
      | Some n => option_map (cons n) (parse_visit_parts rest)
      | None => None
      end
  end.

Definition parse_visit_time (visit_time location : string) : result (Z * Z) :=
  let parts := Str.split "," (Str.remove_spaces visit_time) in
  let parsed :=
    if negb (Nat.eqb (length parts) 2) then None else parse_visit_parts parts in
  match parsed with
  | Some [lo; hi] => Return (lo, hi)
  | _ => Raise (ValueError ("Invalid visit_time '" +:+ visit_time
                            +:+ "' for location '" +:+ location +:+ "'"))
  end.

Fixpoint parse_weekdays_loop (parts : list string) (name : string) (res : list Z)
  : result (list Z) :=
  match parts with
  | [] => Return res
  | part :: rest =>
      match Str.int part with
      | Some day =>
          if (day <? 0) || (6 <? day)
          then Raise (ValueError ("Invalid weekdays for route '" +:+ name +:+ "'"))
          else parse_weekdays_loop rest name (res ++ [day])
      | None => Raise (ValueError ("Invalid weekdays for route '" +:+ name +:+ "'"))
      end
  end.

Definition parse_weekdays (weekdays name : string) : result (list Z) :=
  parse_weekdays_loop (Str.split "," (Str.remove_spaces weekdays)) name [].

Fixpoint parse_waypoints_loop (locations : gmap string Location.t)
    (parts : list string) (name : string) (res : list Location.t)
  : result (list Location.t) :=
  match parts with
  | [] => Return res
  | part :: rest =>
      match locations !! part with
      | Some l => parse_waypoints_loop locations rest name (res ++ [l])
      | None => Raise (ValueError ("Undefined location '" +:+ part
                                   +:+ "' in waypoints list for route '" +:+ name +:+ "'"))
      end
  end.

Definition parse_waypoints (locations : gmap string Location.t)
    (waypoints name : string) : result (list Location.t) :=
  parse_waypoints_loop locations (Str.split "," (Str.remove_spaces waypoints)) name [].

(** *** Loading one route section

    The body of the second loop of [TravelTracer.__init__]. A section of
    the configuration file is the map of its options; [float_of] stands for
    the conversion [ConfigParser.getfloat] applies to the option's text. *)
Section Loader.

Variable float_of : string -> result float.

Definition config_get (section : string) (options : gmap string string)
    (option_name : string) : result string :=
  match options !! option_name with
  | Some v => Return v
  | None => Raise (NoOptionError option_name section)
  end.

(** [try: x = f(config.get(...)) except NoOptionError: pass] *)
Definition optional {A} (options : gmap string string) (option_name : string)
    (f : string -> result A) : result (option A) :=
  match options !! option_name with
  | Some v => result_map Some (f v)
  | None => Return None
  end.

Definition lookup_location (locations : gmap string Location.t)
    (route key : string) : result Location.t :=
  match locations !! key with
  | Some l => Return l
  | None => Raise (ValueError ("Undefined location '" +:+ key +:+ "' in route '"
                               +:+ route +:+ "'"))
  end.

Definition load_route (locations : gmap string Location.t) (route : string)
    (options : gmap string string) : result Route.t :=
  let section := "Route " +:+ route in
  result_bind (config_get section options "start_at") (fun start_name =>
  result_bind (lookup_location locations route start_name) (fun start_at =>
  result_bind (config_get section options "end_at") (fun end_name =>
  result_bind (lookup_location locations route end_name) (fun end_at =>
  result_bind (optional options "waypoints" (fun v => parse_waypoints locations v route))
    (fun waypoints =>
  result_bind (optional options "probability" float_of) (fun probability =>
  result_bind (optional options "weekdays" (fun v => parse_weekdays v route))
    (fun weekdays =>
  Route.init route (VLocation start_at) (VLocation end_at)
    (match waypoints with Some l => VList (map VLocation l) | None => VNone end)
    (VFloat (match probability with Some p => p | None => 1%float end))
    weekdays))))))).

End Loader.

(** *** The tracer object *)

Record TravelTracer : Type := {
  user_id : option string;
  locations : gmap string Location.t;
  routes : list Route.t
}.

(** The test of the [for] loop of [choose_route]. *)
Definition eligible (weekday : Z) (start_at : Location.t) (route : Route.t) : bool :=
  Location.eqb (Route.start_at route) start_at
  && existsb (Z.eqb weekday) (Route.weekdays route).

Fixpoint choose_route_loop (rs : list Route.t) (weekday : Z) (start_at : Location.t)
    (max_probability : float) (chosen_route : option Route.t) : option Route.t :=
  match rs with
  | [] => chosen_route
  | route :: rest =>
      if eligible weekday start_at route
         && PrimFloat.ltb max_probability (Route.probability route)
      then choose_route_loop rest weekday start_at (Route.probability route) (Some route)
      else choose_route_loop rest weekday start_at max_probability chosen_route
  end.

Definition choose_route (self : TravelTracer) (weekday : Z) (start_at : Location.t)
  : result Route.t :=
  match choose_route_loop (routes self) weekday start_at 0%float None with
  | Some route => Return route
  | None => Raise (NoAvailableRouteError
                     ("Starting at location '" +:+ Location.name start_at +:+ "'"))
  end.

(** The [while] loop of [generate_pings]: it ends because [Tc] gets closer to
    [end_time] by [VISIT_PING_TIME] at every turn. *)
Equations? generate_pings_loop (Tc end_time : Z) (pings : list Z) : list Z
  by wf (Z.to_nat (end_time - Tc)) lt :=
  generate_pings_loop Tc end_time pings with Z_lt_dec Tc end_time := {
    | left _ => generate_pings_loop (Tc + VISIT_PING_TIME) end_time (pings ++ [Tc]);
    | right _ => pings }.
Proof. unfold VISIT_PING_TIME. lia. Qed.

Definition generate_pings (location : Location.t) (start_time visit_time : Z) : list Z :=
  generate_pings_loop start_time (start_time + visit_time) [].

(** *** [trace]

    The state of the main loop is [Tc], [Lc] and [points]; the random source
    is threaded through the dwell draws. *)
Record trace_state : Type := {
  Tc : Z;
  Lc : Location.t;
  points : list point
}.

(** [for wp in route.waypoints: points.append((wp, Tc)); Tc += wp.random_visit()] *)
Fixpoint trace_waypoints (wps : list Location.t) (Tc : Z) (points : list point)
    (g : rand) : result (Z * list point * rand) :=
  match wps with
  | [] => Return (Tc, points, g)
  | wp :: rest =>
      let points := points ++ [(wp, Tc)] in
      match random_visit wp g with
      | Return (dwell, g) => trace_waypoints rest (Tc + dwell) points g
      | Raise e => Raise e
      end
  end.

(** One turn of the [while] loop of [trace]. *)
Definition trace_body (self : TravelTracer) (s : trace_state) (g : rand)
  : result (trace_state * rand) :=
  let Tc := Tc s in
  let points := points s in
  match choose_route self (weekday Tc) (Lc s) with
  | Raise e => Raise e
  | Return route =>
      match random_visit (Route.start_at route) g with
      | Raise e => Raise e
      | Return (visit_time, g) =>
          let points :=
            points ++ map (pair (Route.start_at route))
                          (generate_pings (Route.start_at route) Tc visit_time) in
          let Tc := Tc + visit_time in
          match trace_waypoints (Route.waypoints route) Tc points g with
          | Raise e => Raise e
          | Return (Tc, points, g) =>
              match random_visit (Route.end_at route) g with
              | Raise e => Raise e
              | Return (visit_time, g) =>
                  let points :=
                    points ++ map (pair (Route.end_at route))
                                  (generate_pings (Route.end_at route) Tc visit_time) in
                  let Tc := Tc + visit_time in
                  Return ({| Tc := Tc; Lc := Route.end_at route; points := points |}, g)
              end
          end
      end
  end.

(** [while Tc < end_time: ...; return points]. [None]: the fuel ran out
    before the loop ended. *)
Fixpoint trace_loop (fuel : nat) (self : TravelTracer) (end_time : Z)
    (s : trace_state) (g : rand) : option (result (list point)) :=
  if Tc s <? end_time then
    match fuel with
    | O => None
    | S fuel =>
        match trace_body self s g with
        | Raise e => Some (Raise e)
        | Return (s, g) => trace_loop fuel self end_time s g
        end
    end
  else Some (Return (points s)).

Definition trace (fuel : nat) (self : TravelTracer) (start_at start_time end_time : value)
    (g : rand) : option (result (list point)) :=
  match start_at with
  | VLocation start_loc =>
      match start_time with
      | VDatetime start =>
          let end_time :=
            if negb (truthy end_time) then VDatetime (start + 86400) else end_time in
          match end_time with
          | VDatetime stop =>
              trace_loop fuel self stop {| Tc := start; Lc := start_loc; points := [] |} g
          | other =>
              Some (Raise (TypeError ("can't compare datetime.datetime to "
                                      +:+ type_name other)))
          end
      | _ => Some (Raise (TypeError "start_time must be a datetime instance"))
      end
  | _ => Some (Raise (TypeError "start_at must be a Location instance"))
  end.

(** ** Specification vocabulary *)

(** *** Route selection *)

(** [r'] does not beat probability [p]: if it is eligible, [p < r'.probability]
    is false. *)
Definition beats_none (weekday : Z) (start_at : Location.t) (p : float)
    (r' : Route.t) : Prop :=
  eligible weekday start_at r' = true -> PrimFloat.ltb p (Route.probability r') = false.

(** [r'] neither beats nor ties with probability [p]. *)
Definition beats_ties (weekday : Z) (start_at : Location.t) (p : float)
    (r' : Route.t) : Prop :=
  eligible weekday start_at r' = true -> PrimFloat.leb p (Route.probability r') = false.

(** [r] is eligible, has a positive probability, no eligible route of [rs] has
    a greater one, and no eligible route before [r] in [rs] has an equal one. *)
Definition first_best (weekday : Z) (start_at : Location.t) (rs : list Route.t)
    (r : Route.t) : Prop :=
  eligible weekday start_at r = true
  /\ PrimFloat.ltb 0%float (Route.probability r) = true
  /\ exists pre post,
       rs = pre ++ r :: post
       /\ Forall (beats_ties weekday start_at (Route.probability r)) pre
       /\ Forall (beats_none weekday start_at (Route.probability r)) post.

(** The invariant of the scan of [choose_route] once the routes [done] have
    been seen. *)
Definition scan_inv (weekday : Z) (start_at : Location.t) (done : list Route.t)
    (max_probability : float) (chosen_route : option Route.t) : Prop :=
  Forall (beats_none weekday start_at max_probability) done
  /\ match chosen_route with
     | None => max_probability = 0%float
     | Some r => max_probability = Route.probability r
                 /\ first_best weekday start_at done r
     end.

(** *** Pings of a stop *)

(** The least [n] with [visit_time <= n * VISIT_PING_TIME]: the ceiling of
    [visit_time / VISIT_PING_TIME]. *)
Definition ping_count (visit_time : Z) : nat :=
  Z.to_nat ((visit_time + VISIT_PING_TIME - 1) / VISIT_PING_TIME).

(** [start_time], [start_time + VISIT_PING_TIME], ...: [n] timestamps. *)
Definition ping_times (start_time : Z) (n : nat) : list Z :=
  map (fun k => start_time + VISIT_PING_TIME * Z.of_nat k) (seq 0 n).

(** *** Waypoints of a route *)

Definition sum_dwells (dwells : list Z) : Z := fold_right Z.add 0 dwells.

(** One point per waypoint, stamped with the time of arrival: the start time
    plus the dwells of the waypoints before it. *)
Fixpoint waypoint_points (wps : list Location.t) (arrival : Z) (dwells : list Z)
  : list point :=
  match wps, dwells with
  | wp :: wps, dwell :: dwells =>
      (wp, arrival) :: waypoint_points wps (arrival + dwell) dwells
  | _, _ => []
  end.

Definition in_visit_range (l : Location.t) (dwell : Z) : Prop :=
  fst (Location.visit_time l) <= dwell <= snd (Location.visit_time l).

(** *** Locations on the way *)

Definition on_route (r : Route.t) (l : Location.t) : Prop :=
  l = Route.start_at r \/ In l (Route.waypoints r) \/ l = Route.end_at r.

(** The locations a trace from [from] can draw a dwell for. *)
Inductive reachable (rs : list Route.t) (from : Location.t) : Location.t -> Prop :=
| reach_start : reachable rs from from
| reach_route (l l' : Location.t) (r : Route.t) :
    reachable rs from l ->
    In r rs ->
    Location.eqb (Route.start_at r) l = true ->
    on_route r l' ->
    reachable rs from l'.

(** The dwell ranges of the locations on the routes are ranges of
    non-negative integers with min <= max. *)
Definition valid_visit_time (l : Location.t) : Prop :=
  0 <= fst (Location.visit_time l) <= snd (Location.visit_time l).

Definition valid_routes (rs : list Route.t) : Prop :=
  forall r l, In r rs -> on_route r l -> valid_visit_time l.

(** *** Iterations of the main loop *)

(** The state after [k] complete turns of the loop of [trace], if it makes
    that many. *)
Fixpoint turns (k : nat) (self : TravelTracer) (end_time : Z) (s : trace_state)
    (g : rand) : option (trace_state * rand) :=
  match k with
  | O => Some (s, g)
  | S k =>
      if Tc s <? end_time then
        match trace_body self s g with
        | Return (s, g) => turns k self end_time s g
        | Raise _ => None
        end
      else None
  end.

(** *** The annotated trace

    The trace with, on every entry, what produced it: a ping of the dwell at
    the start or end of a route, or the passage at a waypoint, and the dwell
    drawn for that stop. [log_waypoints], [log_body] and [log_loop] follow
    [trace_waypoints], [trace_body] and [trace_loop]; forgetting the
    annotations gives the trace ([trace_loop_erase]). *)
Inductive entry_kind : Type := StopPing | WaypointPass.

Record entry : Type := {
  e_kind : entry_kind;
  e_loc : Location.t;
  e_time : Z;
  e_dwell : Z
}.

Definition entry_point (e : entry) : point := (e_loc e, e_time e).

Definition stop_entries (l : Location.t) (Tc visit_time : Z) : list entry :=
  map (fun t => {| e_kind := StopPing; e_loc := l; e_time := t; e_dwell := visit_time |})
      (generate_pings l Tc visit_time).

Fixpoint log_waypoints (wps : list Location.t) (Tc : Z) (log : list entry)
    (g : rand) : result (Z * list entry * rand) :=
  match wps with
  | [] => Return (Tc, log, g)
  | wp :: rest =>
      match random_visit wp g with
      | Return (dwell, g) =>
          log_waypoints rest (Tc + dwell)
            (log ++ [{| e_kind := WaypointPass; e_loc := wp; e_time := Tc;
                        e_dwell := dwell |}]) g
      | Raise e => Raise e
      end
  end.

Record log_state : Type := {
  log_Tc : Z;
  log_Lc : Location.t;
  log_entries : list entry
}.

Definition erase (s : log_state) : trace_state :=
  {| Tc := log_Tc s; Lc := log_Lc s; points := map entry_point (log_entries s) |}.

Definition log_body (self : TravelTracer) (s : log_state) (g : rand)
  : result (log_state * rand) :=
  match choose_route self (weekday (log_Tc s)) (log_Lc s) with
  | Raise e => Raise e
  | Return route =>
      match random_visit (Route.start_at route) g with
      | Raise e => Raise e
      | Return (d0, g) =>
          match log_waypoints (Route.waypoints route) (log_Tc s + d0)
                  (log_entries s ++ stop_entries (Route.start_at route) (log_Tc s) d0) g with
          | Raise e => Raise e
          | Return (t, log, g) =>
              match random_visit (Route.end_at route) g with
              | Raise e => Raise e
              | Return (d1, g) =>
                  Return ({| log_Tc := t + d1; log_Lc := Route.end_at route;
                             log_entries := log ++ stop_entries (Route.end_at route) t d1 |},
                          g)
              end
          end
      end
  end.

Fixpoint log_loop (fuel : nat) (self : TravelTracer) (end_time : Z)
    (s : log_state) (g : rand) : option (result (list entry)) :=
  if log_Tc s <? end_time then
    match fuel with
    | O => None
    | S fuel =>
        match log_body self s g with
        | Raise e => Some (Raise e)
        | Return (s, g) => log_loop fuel self end_time s g
        end
    end
  else Some (Return (log_entries s)).

(** Two adjacent entries as the trace orders them: time does not go back, and
    a tie means the earlier entry is the passage at a waypoint whose dwell was
    zero. *)
Definition tie_after_waypoint (e1 e2 : entry) : Prop :=
  e_time e1 <= e_time e2
  /\ (e_time e1 = e_time e2 -> e_kind e1 = WaypointPass /\ e_dwell e1 = 0).

(** The stricter reading: a tie only between two waypoint passages. *)
Definition tie_between_waypoints (e1 e2 : entry) : Prop :=
  e_time e1 <= e_time e2
  /\ (e_time e1 = e_time e2 ->
      e_kind e1 = WaypointPass /\ e_kind e2 = WaypointPass /\ e_dwell e1 = 0).

Definition trace_log (fuel : nat) (self : TravelTracer)
    (start_at start_time end_time : value) (g : rand) : option (result (list entry)) :=
  match start_at with
  | VLocation start_loc =>
      match start_time with
      | VDatetime start =>
          let end_time :=
            if negb (truthy end_time) then VDatetime (start + 86400) else end_time in
          match end_time with
          | VDatetime stop =>
              log_loop fuel self stop
                {| log_Tc := start; log_Lc := start_loc; log_entries := [] |} g
          | other =>
              Some (Raise (TypeError ("can't compare datetime.datetime to "
                                      +:+ type_name other)))
          end
      | _ => Some (Raise (TypeError "start_time must be a datetime instance"))
      end
  | _ => Some (Raise (TypeError "start_at must be a Location instance"))
  end.

(** An entry made before the clock reached [bound]: it is not later than
    [bound], and at [bound] itself only if it is the passage at a waypoint
    of dwell zero. *)
Definition bounded_by (bound : Z) (e : entry) : Prop :=
  e_time e <= bound
  /\ (e_time e = bound -> e_kind e = WaypointPass /\ e_dwell e = 0).

(** The invariant of the loop of the annotated trace. *)
Definition log_inv (bound : Z) (log : list entry) : Prop :=
  Sorted tie_after_waypoint log /\ Forall (bounded_by bound) log.

(** ** Sample configurations *)

Module Sample.

(** 2024-01-01 00:00:00, a Monday. *)
Definition new_year : Z := 738885 * 86400.

(** A random source whose raw draws are all 0. *)
Definition draws : rand := fun _ => 0.

Definition loc_A : Location.t := Location.mk 0 "A" 1 2 (600, 600).
Definition loc_B : Location.t := Location.mk 1 "B" 3 4 (0, 0).

(** One route from [A] (dwell 600) to [B] (dwell 0), and none from [B]. *)
Definition route_AB : Route.t := Route.mk "A->B" loc_A [] loc_B 1 (range 7).

Definition tracer_AB : TravelTracer :=
  {| user_id := None;
     locations := {[ "A" := loc_A; "B" := loc_B ]};
     routes := [route_AB] |}.

(** A route from [C] through the waypoint [W] to [D]; [C] and [W] have
    dwell 0, [D] has dwell 600. *)
Definition loc_C : Location.t := Location.mk 2 "C" 1 2 (0, 0).
Definition loc_W : Location.t := Location.mk 3 "W" 2 3 (0, 0).
Definition loc_D : Location.t := Location.mk 4 "D" 3 4 (600, 600).

Definition route_CWD : Route.t := Route.mk "C->D" loc_C [loc_W] loc_D 1 (range 7).

Definition tracer_CWD : TravelTracer :=
  {| user_id := None;
     locations := {[ "C" := loc_C; "W" := loc_W; "D" := loc_D ]};
     routes := [route_CWD] |}.

(** A cycle of one route whose every dwell is (0,0). *)
Definition loc_Z : Location.t := Location.mk 5 "Z" 0 0 (0, 0).

Definition route_ZZ : Route.t := Route.mk "Z->Z" loc_Z [] loc_Z 1 (range 7).

Definition tracer_ZZ : TravelTracer :=
  {| user_id := None;
     locations := {[ "Z" := loc_Z ]};
     routes := [route_ZZ] |}.

(** A cycle of one route whose every dwell is positive. *)
Definition loc_H : Location.t := Location.mk 6 "H" 0 0 (3600, 7200).

Definition route_HH : Route.t := Route.mk "H->H" loc_H [] loc_H 1 (range 7).

Definition tracer_HH : TravelTracer :=
  {| user_id := None;
     locations := {[ "H" := loc_H ]};
     routes := [route_HH] |}.

End Sample.

(** ** Shapes of the configuration values *)

(** [part] is an integer that [int] reads as [k], followed by a unit: [n] is
    its value in seconds. *)
Definition with_unit (unit : ascii) (factor : Z) (part : string) (n : Z) : Prop :=
  exists body k,
    part = body +:+ String unit EmptyString /\ Str.int body = Some k /\ n = k * factor.

(** One end of a dwell range: an integer with the suffix [h], [m] or [s], or
    a bare integer, taken as seconds. *)
Definition endpoint (part : string) (n : Z) : Prop :=
  with_unit "h" 3600 part n
  \/ with_unit "m" 60 part n
  \/ with_unit "s" 1 part n
  \/ Str.int part = Some n.

(** The text, spaces removed, splits on commas into exactly two endpoints. *)
Definition visit_time_shape (visit_time : string) (lo hi : Z) : Prop :=
  exists p1 p2,
    Str.split "," (Str.remove_spaces visit_time) = [p1; p2]
    /\ endpoint p1 lo /\ endpoint p2 hi.

Definition in_week (day : Z) : Prop := 0 <= day <= 6.

Module SampleRun.

Import Sample.

(** The state before and after the only turn of a trace from [C]. *)
Definition before : trace_state :=
  {| Tc := new_year; Lc := loc_C; points := [] |}.

Definition after : trace_state :=
  {| Tc := new_year + 600; Lc := loc_D;
     points := [(loc_W, new_year); (loc_D, new_year)] |}.

(** Its annotated trace: the passage at [W], then the ping of the dwell at
    [D], at the same time. *)
Definition log : list entry :=
  [ {| e_kind := WaypointPass; e_loc := loc_W; e_time := new_year; e_dwell := 0 |};
    {| e_kind := StopPing; e_loc := loc_D; e_time := new_year; e_dwell := 600 |} ].

(** Three routes from [A]: two tied at the highest probability, one of
    probability 0 from [B]. *)
Definition route_low : Route.t := Route.mk "low" loc_A [] loc_B 0.25 (range 7).
Definition route_first : Route.t := Route.mk "first" loc_A [] loc_B 0.75 (range 7).
Definition route_second : Route.t := Route.mk "second" loc_A [] loc_C 0.75 (range 7).
Definition route_never : Route.t := Route.mk "never" loc_B [] loc_A 0 (range 7).

Definition tracer_ties : TravelTracer :=
  {| user_id := None;
     locations := {[ "A" := loc_A; "B" := loc_B; "C" := loc_C ]};
     routes := [route_low; route_first; route_second; route_never] |}.

End SampleRun.

(** ** Loading a configuration

    The first branch of [TravelTracer.__init__], from the parsed
    configuration: the sections in the order [config.sections()] gives them
    (their names are distinct), each with the map of its options. *)

(** [s.startswith(prefix)] *)
Fixpoint startswith (s prefix : string) : bool :=
  match prefix, s with
  | EmptyString, _ => true
  | String p prefix, String c s => Ascii.eqb c p && startswith s prefix
  | String _ _, EmptyString => false
  end.

(** [s[n:]] *)
Fixpoint drop_chars (n : nat) (s : string) : string :=
  match n, s with
  | O, _ => s
  | S n, String _ s => drop_chars n s
  | S _, EmptyString => EmptyString
  end.

(** [Location.__init__]; [oid] is the identity of the object it makes.
    [visit_time] is [None] or a pair of integers, which passes the test on
    the tuple. *)
Definition Location_init (oid : nat) (name : string) (latitude longitude : value)
    (visit_time : option (Z * Z)) : result Location.t :=
  match latitude, longitude with
  | VFloat lat, VFloat lon =>
      Return (Location.mk oid name lat lon
                (match visit_time with Some vt => vt | None => (0, 0) end))
  | _, _ => Raise (TypeError "latitude and longitude must be signed, floating point numbers")
  end.

Section Config.

Variable float_of : string -> result float.

(** [config.getfloat(section, option)] *)
Definition getfloat (section : string) (options : gmap string string)
    (option_name : string) : result float :=
  result_bind (config_get section options option_name) float_of.

(** The first loop: the directory of locations, and the route sections in
    order. [next] counts the [Location] objects made so far. *)
Fixpoint load_sections (sections : list (string * gmap string string))
    (locations : gmap string Location.t)
    (route_names : list (string * gmap string string)) (next : nat)
  : result (gmap string Location.t * list (string * gmap string string)) :=
  match sections with
  | [] => Return (locations, route_names)
  | (section, options) :: rest =>
      if startswith section "Location " then
        let name := drop_chars (String.length "Location ") section in
        result_bind (optional options "visit_time" (fun v => parse_visit_time v name))
          (fun visit_time =>
        result_bind (getfloat section options "latitude") (fun latitude =>
        result_bind (getfloat section options "longitude") (fun longitude =>
        result_bind (Location_init next name (VFloat latitude) (VFloat longitude) visit_time)
          (fun location =>
        load_sections rest (<[name := location]> locations) route_names (S next)))))
      else if startswith section "Route " then
        let name := drop_chars (String.length "Route ") section in
        load_sections rest locations (route_names ++ [(name, options)]) next
      else load_sections rest locations route_names next
  end.

(** The second loop. *)
Fixpoint load_routes (locations : gmap string Location.t)
    (route_names : list (string * gmap string string)) (routes : list Route.t)
  : result (list Route.t) :=
  match route_names with
  | [] => Return routes
  | (route, options) :: rest =>
      result_bind (load_route float_of locations route options) (fun r =>
      load_routes locations rest (routes ++ [r]))
  end.

Definition load_config (config : list (string * gmap string string))
  : result TravelTracer :=
  result_bind (load_sections config ∅ [] 0) (fun loaded =>
  result_bind (load_routes (fst loaded) (snd loaded) []) (fun routes =>
  Return {| user_id := None; locations := fst loaded; routes := routes |})).

End Config.

(** The route sections of a configuration, in order: the name of the route
    and the options. *)
Fixpoint route_sections (config : list (string * gmap string string))
  : list (string * gmap string string) :=
  match config with
  | [] => []
  | (section, options) :: rest =>
      if startswith section "Location " then route_sections rest
      else if startswith section "Route "
           then (drop_chars (String.length "Route ") section, options)
                :: route_sections rest
           else route_sections rest
  end.

(** The names of the location sections of a configuration. *)
Fixpoint location_section_names (config : list (string * gmap string string))
  : list string :=
  match config with
  | [] => []
  | (section, _) :: rest =>
      if startswith section "Location "
      then drop_chars (String.length "Location ") section
           :: location_section_names rest
      else location_section_names rest
  end.

(** The directory files every location under its own name, and two entries
    are two objects; [next] bounds the identities in use. *)
Definition directory_ok (next : nat) (locations : gmap string Location.t) : Prop :=
  (forall n l, locations !! n = Some l ->
               Location.name l = n /\ (Location.oid l < next)%nat)
  /\ (forall n1 n2 l1 l2,
        locations !! n1 = Some l1 -> locations !! n2 = Some l2 ->
        Location.oid l1 = Location.oid l2 -> n1 = n2).

(** ** Further vocabulary *)

(** The location of a point is on one of the routes. *)
Definition on_some_route (rs : list Route.t) (p : point) : Prop :=
  exists r, In r rs /\ on_route r (fst p).

Definition is_location (v : value) : bool :=
  match v with VLocation _ => true | _ => false end.

(** The position of the first value of a list that is not a location. *)
Fixpoint first_not_location (vs : list value) : option nat :=
  match vs with
  | [] => None
  | VLocation _ :: rest => option_map S (first_not_location rest)
  | _ :: _ => Some O
  end.

Module SampleConfig.

(** [float_of] on the two coordinates the sample uses. *)
Definition float_of (s : string) : result float :=
  if String.eqb s "1.0" then Return 1%float
  else if String.eqb s "2.5" then Return 2.5%float
  else Raise (ValueError ("could not convert string to float: " +:+ s)).

Definition route_back_options : gmap string string :=
  {[ "start_at" := "Work"; "end_at" := "Home"; "weekdays" := "5,6" ]}.

Definition config : list (string * gmap string string) :=
  [ ("Location Home",
     {[ "latitude" := "1.0"; "longitude" := "2.5"; "visit_time" := "1h,2h" ]});
    ("Route out",
     {[ "start_at" := "Home"; "end_at" := "Work"; "waypoints" := "Cafe" ]});
    ("General", {[ "user" := "me" ]});
    ("Location Work", {[ "latitude" := "2.5"; "longitude" := "1.0" ]});
    ("Location Cafe",
     {[ "latitude" := "1.0"; "longitude" := "1.0"; "visit_time" := "5m,10m" ]});
    ("Route back", route_back_options) ].

(** What the sample configuration loads to. *)
Definition home : Location.t := Location.mk 0 "Home" 1 2.5 (3600, 7200).
Definition work : Location.t := Location.mk 1 "Work" 2.5 1 (0, 0).
Definition cafe : Location.t := Location.mk 2 "Cafe" 1 1 (300, 600).

Definition route_out : Route.t := Route.mk "out" home [cafe] work 1 (range 8).
Definition route_back : Route.t := Route.mk "back" work [] home 1 [5; 6].

Definition loaded : TravelTracer :=
  {| user_id := None;
     locations := {[ "Home" := home; "Work" := work; "Cafe" := cafe ]};
     routes := [route_out; route_back] |}.

(** A cycle of one route at [S], where every dwell is 600. *)
Definition loc_S : Location.t := Location.mk 7 "S" 0 0 (600, 600).
Definition route_SS : Route.t := Route.mk "S->S" loc_S [] loc_S 1 (range 7).

Definition tracer_SS : TravelTracer :=
  {| user_id := None; locations := {[ "S" := loc_S ]}; routes := [route_SS] |}.

End SampleConfig.

(** * Properties *)

(** ** The order of floats

    The IEEE comparisons are transitive on all floats, NaN included (every
    comparison with NaN is false). *)
Module FloatOrder.

Ltac cmp_cases :=
  repeat match goal with
  | |- context [Z.compare ?a ?b] => destruct (Z.compare_spec a b)
  | |- context [Pos.compare_cont Eq ?a ?b] =>
      change (Pos.compare_cont Eq a b) with (Pos.compare a b);
      destruct (Pos.compare_spec a b)
  end.

Lemma SFltb_leb_trans a b c :
  SFltb a b = true -> SFleb b c = true -> SFltb a c = true.
Proof.
  unfold SFltb, SFleb, SFcompare.
  destruct a as [[]|[]| |[] ma ea], b as [[]|[]| |[] mb eb], c as [[]|[]| |[] mc ec];
    simpl; try discriminate; try reflexivity;
    cmp_cases; simpl; intros; subst; try discriminate; try reflexivity; try lia.
Qed.

Lemma ltb_leb_trans (x y z : float) :
  PrimFloat.ltb x y = true -> PrimFloat.leb y z = true -> PrimFloat.ltb x z = true.
Proof. rewrite !ltb_spec, leb_spec. apply SFltb_leb_trans. Qed.

Lemma ltb_leb (x y : float) : PrimFloat.ltb x y = true -> PrimFloat.leb x y = true.
Proof.
  rewrite ltb_spec, leb_spec. unfold SFltb, SFleb.
  destruct (SFcompare _ _) as [[]|]; easy.
Qed.

Lemma ltb_trans (x y z : float) :
  PrimFloat.ltb x y = true -> PrimFloat.ltb y z = true -> PrimFloat.ltb x z = true.
Proof. intros H1 H2. eapply ltb_leb_trans; [exact H1 | now apply ltb_leb]. Qed.

Lemma ltb_irrefl (x : float) : PrimFloat.ltb x x = false.
Proof.
  rewrite ltb_spec. unfold SFltb, SFcompare.
  destruct (Prim2SF x) as [[]|[]| |[] m e]; simpl; try reflexivity;
    rewrite Z.compare_refl;
    change (Pos.compare_cont Eq m m) with (Pos.compare m m);
    rewrite Pos.compare_refl; reflexivity.
Qed.

(** No float is both below 0.0 and above 1.0. *)
Lemma not_below_0_and_above_1 (p : float) :
  PrimFloat.ltb p 0%float && PrimFloat.ltb 1%float p = false.
Proof.
  destruct (PrimFloat.ltb p 0) eqn:H0; [| reflexivity].
  destruct (PrimFloat.ltb 1 p) eqn:H1; [| reflexivity].
  pose proof (ltb_trans _ _ _ H1 H0) as H. vm_compute in H. discriminate.
Qed.

End FloatOrder.

(** ** The route selector *)

Section ChooseRoute.

Variables (weekday : Z) (start_at : Location.t).

Lemma beats_ties_none p r' :
  beats_ties weekday start_at p r' -> beats_none weekday start_at p r'.
Proof.
  unfold beats_ties, beats_none. intros H He.
  destruct (PrimFloat.ltb p (Route.probability r')) eqn:Hlt; [| reflexivity].
  apply FloatOrder.ltb_leb in Hlt. rewrite (H He) in Hlt. discriminate.
Qed.

Lemma beats_none_raise p q r' :
  PrimFloat.ltb p q = true ->
  beats_none weekday start_at p r' -> beats_ties weekday start_at q r'.
Proof.
  unfold beats_ties, beats_none. intros Hpq H He.
  destruct (PrimFloat.leb q (Route.probability r')) eqn:Hle; [| reflexivity].
  rewrite (FloatOrder.ltb_leb_trans _ _ _ Hpq Hle) in H. now apply H.
Qed.

Lemma scan_inv_positive done max_probability r :
  scan_inv weekday start_at done max_probability (Some r) ->
  PrimFloat.ltb 0%float max_probability = true.
Proof. intros [_ [-> (_ & H & _)]]. exact H. Qed.

Lemma scan_inv_skip done max_probability chosen_route route :
  scan_inv weekday start_at done max_probability chosen_route ->
  beats_none weekday start_at max_probability route ->
  scan_inv weekday start_at (done ++ [route]) max_probability chosen_route.
Proof.
  intros [Hb Hc] Hroute. split.
  - apply Forall_app. split; [exact Hb | now constructor].
  - destruct chosen_route as [r |]; [| exact Hc].
    destruct Hc as [-> (He & Hpos & pre & post & -> & Hpre & Hpost)].
    split; [reflexivity |]. split; [exact He |]. split; [exact Hpos |].
    exists pre, (post ++ [route]). split; [now rewrite <- app_assoc |].
    split; [exact Hpre |]. apply Forall_app. split; [exact Hpost | now constructor].
Qed.

Lemma scan_inv_take done max_probability chosen_route route :
  scan_inv weekday start_at done max_probability chosen_route ->
  eligible weekday start_at route = true ->
  PrimFloat.ltb max_probability (Route.probability route) = true ->
  scan_inv weekday start_at (done ++ [route]) (Route.probability route) (Some route).
Proof.
  intros Hinv He Hlt.
  assert (Hdone : Forall (beats_ties weekday start_at (Route.probability route)) done).
  { eapply Forall_impl; [apply Hinv |]. intros r' Hr'.
    eapply beats_none_raise; eauto. }
  split.
  - apply Forall_app. split.
    + eapply Forall_impl; [exact Hdone |]. intros r'. apply beats_ties_none.
    + constructor; [| constructor]. intros _. apply FloatOrder.ltb_irrefl.
  - split; [reflexivity |]. split; [exact He |]. split.
    + destruct chosen_route as [r |].
      * eapply FloatOrder.ltb_trans; [eapply scan_inv_positive; eauto | exact Hlt].
      * destruct Hinv as [_ ->]. exact Hlt.
    + exists done, []. split; [reflexivity |]. split; [exact Hdone | constructor].
Qed.

Lemma choose_route_loop_spec rs : forall done max_probability chosen_route,
  scan_inv weekday start_at done max_probability chosen_route ->
  match choose_route_loop rs weekday start_at max_probability chosen_route with
  | Some r => first_best weekday start_at (done ++ rs) r
  | None => Forall (beats_none weekday start_at 0%float) (done ++ rs)
  end.
Proof.
  induction rs as [| route rest IH]; intros done mp chosen Hinv; simpl.
  - rewrite app_nil_r. destruct Hinv as [Hb Hc].
    destruct chosen as [r |]; [apply Hc | now subst].
  - replace (done ++ route :: rest) with ((done ++ [route]) ++ rest)
      by now rewrite <- app_assoc.
    destruct (eligible weekday start_at route) eqn:He; simpl.
    + destruct (PrimFloat.ltb mp (Route.probability route)) eqn:Hlt; apply IH.
      * now apply (scan_inv_take done mp chosen).
      * apply scan_inv_skip; [exact Hinv |]. intros _. exact Hlt.
    + apply IH. apply scan_inv_skip; [exact Hinv |]. intros Habs. congruence.
Qed.

Lemma choose_route_Return self r :
  choose_route self weekday start_at = Return r ->
  first_best weekday start_at (routes self) r.
Proof.
  unfold choose_route.
  pose proof (choose_route_loop_spec (routes self) [] 0%float None) as H.
  simpl in H. destruct (choose_route_loop _ _ _ _ _); [| discriminate].
  intros [= <-]. apply H. split; [constructor | reflexivity].
Qed.

Lemma choose_route_Raise self e :
  choose_route self weekday start_at = Raise e ->
  e = NoAvailableRouteError ("Starting at location '" +:+ Location.name start_at +:+ "'")
  /\ Forall (beats_none weekday start_at 0%float) (routes self).
Proof.
  unfold choose_route.
  pose proof (choose_route_loop_spec (routes self) [] 0%float None) as H.
  simpl in H. destruct (choose_route_loop _ _ _ _ _); [discriminate |].
  intros [= <-]. split; [reflexivity |]. apply H. split; [constructor | reflexivity].
Qed.

Lemma first_best_not_beaten rs r :
  first_best weekday start_at rs r ->
  ~ Forall (beats_none weekday start_at 0%float) rs.
Proof.
  intros (He & Hpos & pre & post & -> & _) Hall.
  apply Forall_app in Hall as [_ Hall]. inversion Hall as [| ? ? Hr _]; subst.
  rewrite (Hr He) in Hpos. discriminate.
Qed.

Lemma choose_route_none self :
  Forall (beats_none weekday start_at 0%float) (routes self) ->
  choose_route self weekday start_at =
  Raise (NoAvailableRouteError ("Starting at location '" +:+ Location.name start_at +:+ "'")).
Proof.
  intros Hall. destruct (choose_route self weekday start_at) as [r | e] eqn:Hc.
  - apply choose_route_Return in Hc. now apply first_best_not_beaten in Hc.
  - apply choose_route_Raise in Hc as [-> _]. reflexivity.
Qed.

Lemma first_best_In rs r : first_best weekday start_at rs r -> In r rs.
Proof.
  intros (_ & _ & pre & post & -> & _). apply in_or_app. right. now left.
Qed.

End ChooseRoute.

(** C3: [choose_route] returns the first, in list order, of the eligible
    routes of highest probability, and that probability is positive (a route
    of probability 0 is never selected); when no eligible route has a positive
    probability it raises [NoAvailableRouteError] with the name of the current
    location; the answer depends on the routes, the weekday and the location
    only. *)
Theorem choose_route_first_best (self : TravelTracer) (weekday : Z) (start_at : Location.t) :
  (forall r, choose_route self weekday start_at = Return r ->
             first_best weekday start_at (routes self) r)
  /\ (Forall (beats_none weekday start_at 0%float) (routes self) <->
      choose_route self weekday start_at =
      Raise (NoAvailableRouteError
               ("Starting at location '" +:+ Location.name start_at +:+ "'")))
  /\ (forall e, choose_route self weekday start_at = Raise e ->
        e = NoAvailableRouteError
              ("Starting at location '" +:+ Location.name start_at +:+ "'"))
  /\ (forall other, routes other = routes self ->
        choose_route other weekday start_at = choose_route self weekday start_at).
Proof.
  split; [| split; [| split]].
  - intros r. apply choose_route_Return.
  - split; [apply choose_route_none |].
    intros H. now apply choose_route_Raise in H.
  - intros e H. now apply choose_route_Raise in H.
  - intros other Hr. unfold choose_route. now rewrite Hr.
Qed.

(** ** Pings of a stop *)

Ltac zdiv := Z.to_euclidean_division_equations; lia.

Lemma generate_pings_loop_step Tc end_time pings :
  generate_pings_loop Tc end_time pings =
  if Tc <? end_time
  then generate_pings_loop (Tc + VISIT_PING_TIME) end_time (pings ++ [Tc])
  else pings.
Proof.
  rewrite generate_pings_loop_equation_1. simpl.
  destruct (Z_lt_dec Tc end_time) as [H | H]; simpl.
  - apply Z.ltb_lt in H. now rewrite H.
  - apply Z.ltb_nlt in H. now rewrite H.
Qed.

Lemma ping_times_S start_time n :
  ping_times start_time (S n) = start_time :: ping_times (start_time + VISIT_PING_TIME) n.
Proof.
  unfold ping_times. simpl. f_equal; [lia |].
  rewrite <- seq_shift, map_map. apply map_ext. intros k. lia.
Qed.

Lemma generate_pings_loop_spec n : forall Tc end_time pings,
  ping_count (end_time - Tc) = n ->
  generate_pings_loop Tc end_time pings = pings ++ ping_times Tc n.
Proof.
  unfold ping_count, VISIT_PING_TIME.
  induction n as [| n IH]; intros Tc end_time pings Hn;
    rewrite generate_pings_loop_step.
  - destruct (Z.ltb_spec Tc end_time); [zdiv |]. simpl. now rewrite app_nil_r.
  - destruct (Z.ltb_spec Tc end_time); [| zdiv].
    rewrite IH by (unfold VISIT_PING_TIME; zdiv).
    rewrite ping_times_S, <- app_assoc. reflexivity.
Qed.

Lemma generate_pings_eq location start_time visit_time :
  generate_pings location start_time visit_time =
  ping_times start_time (ping_count visit_time).
Proof.
  unfold generate_pings.
  rewrite (generate_pings_loop_spec (ping_count visit_time)); [reflexivity |].
  f_equal. lia.
Qed.

Lemma length_ping_times start_time n : length (ping_times start_time n) = n.
Proof. unfold ping_times. now rewrite length_map, length_seq. Qed.

Lemma ping_times_bounds start_time n t :
  In t (ping_times start_time n) ->
  start_time <= t <= start_time + VISIT_PING_TIME * (Z.of_nat n - 1).
Proof.
  unfold ping_times. rewrite in_map_iff. intros (k & <- & Hk).
  apply in_seq in Hk. unfold VISIT_PING_TIME. lia.
Qed.

Lemma ping_count_ceiling visit_time :
  0 < visit_time ->
  VISIT_PING_TIME * (Z.of_nat (ping_count visit_time) - 1) < visit_time
  <= VISIT_PING_TIME * Z.of_nat (ping_count visit_time).
Proof. unfold ping_count, VISIT_PING_TIME. intros H. zdiv. Qed.

Lemma ping_count_nonpositive visit_time : visit_time <= 0 -> ping_count visit_time = 0%nat.
Proof. unfold ping_count, VISIT_PING_TIME. intros H. zdiv. Qed.

Lemma generate_pings_lt location start_time visit_time t :
  In t (generate_pings location start_time visit_time) ->
  start_time <= t < start_time + visit_time.
Proof.
  rewrite generate_pings_eq. intros Ht.
  destruct (Z_lt_le_dec 0 visit_time) as [Hpos | Hle].
  - apply ping_times_bounds in Ht. pose proof (ping_count_ceiling _ Hpos). lia.
  - rewrite (ping_count_nonpositive _ Hle) in Ht. destruct Ht.
Qed.

(** C2: for a dwell [visit_time >= 0] from [start_time], [generate_pings]
    returns the timestamps [start_time], [start_time + 600], ...; their number
    is 0 when the dwell is 0 and the ceiling of [visit_time / 600] otherwise
    (the [n] with [600 * (n - 1) < visit_time <= 600 * n]); every one of them
    is strictly less than [start_time + visit_time]. *)
Theorem generate_pings_count_and_bound (location : Location.t) (start_time visit_time : Z) :
  0 <= visit_time ->
  let pings := generate_pings location start_time visit_time in
  let n := Z.of_nat (length pings) in
  pings = map (fun k => start_time + 600 * Z.of_nat k) (seq 0 (length pings))
  /\ (visit_time = 0 -> n = 0)
  /\ (0 < visit_time -> 600 * (n - 1) < visit_time <= 600 * n)
  /\ n = (visit_time + 599) / 600
  /\ Forall (fun t => t < start_time + visit_time) pings.
Proof.
  intros Hd pings n. subst pings n. rewrite generate_pings_eq, length_ping_times.
  split; [reflexivity |]. split; [| split; [| split]].
  - intros ->. reflexivity.
  - apply ping_count_ceiling.
  - unfold ping_count, VISIT_PING_TIME. zdiv.
  - apply List.Forall_forall. intros t Ht.
    rewrite <- (generate_pings_eq location) in Ht.
    now apply generate_pings_lt in Ht.
Qed.

Lemma generate_pings_count_and_bound_witness :
  generate_pings (Location.mk 0 "A" 1 2 (0, 0)) 100 1201 = [100; 700; 1300]
  /\ Forall (fun t => t < 100 + 1201) [100; 700; 1300].
Proof.
  pose proof (generate_pings_count_and_bound
                (Location.mk 0 "A" 1 2 (0, 0)) 100 1201 ltac:(lia)) as H.
  split; [vm_compute; reflexivity |].
  replace [100; 700; 1300] with (generate_pings (Location.mk 0 "A" 1 2 (0, 0)) 100 1201)
    by (vm_compute; reflexivity).
  apply H.
Defined.

(** ** Dwell draws *)

Lemma randint_Return a b g n g' :
  randint a b g = Return (n, g') -> a <= n <= b /\ g' = rand_tail g.
Proof.
  unfold randint. destruct (Z.ltb_spec b a); [discriminate |].
  intros [= <- <-]. split; [| reflexivity].
  pose proof (Z.mod_pos_bound (g 0%nat) (b - a + 1)). lia.
Qed.

Lemma random_visit_Return l g dwell g' :
  random_visit l g = Return (dwell, g') -> in_visit_range l dwell.
Proof. intros H. now apply randint_Return in H. Qed.

(** A location whose range is a single value always dwells that long. *)
Lemma random_visit_fixed l g n :
  Location.visit_time l = (n, n) -> random_visit l g = Return (n, rand_tail g).
Proof.
  intros H. unfold random_visit, randint. rewrite H. simpl.
  rewrite Z.ltb_irrefl. replace (n - n + 1) with 1 by lia.
  rewrite Z.mod_1_r. do 2 f_equal. lia.
Qed.

(** ** Waypoints *)

Lemma trace_waypoints_spec wps : forall Tc points g Tc' points' g',
  trace_waypoints wps Tc points g = Return (Tc', points', g') ->
  exists dwells,
    Forall2 in_visit_range wps dwells
    /\ points' = points ++ waypoint_points wps Tc dwells
    /\ Tc' = Tc + sum_dwells dwells.
Proof.
  induction wps as [| wp rest IH]; intros Tc points g Tc' points' g'; simpl.
  - intros [= <- <- <-]. exists []. split; [constructor |].
    rewrite app_nil_r. simpl. split; [reflexivity | lia].
  - destruct (random_visit wp g) as [[dwell g1] | e] eqn:Hd; [| discriminate].
    intros H. apply IH in H as (dwells & Hr & -> & ->).
    exists (dwell :: dwells). split; [| split].
    + constructor; [| exact Hr]. eapply random_visit_Return; eauto.
    + rewrite <- app_assoc. reflexivity.
    + simpl. lia.
Qed.

Lemma waypoint_points_locations wps : forall arrival dwells,
  length dwells = length wps ->
  map fst (waypoint_points wps arrival dwells) = wps.
Proof.
  induction wps as [| wp rest IH]; intros arrival [| d ds] Hlen;
    simpl in *; try discriminate; [reflexivity |].
  f_equal. apply IH. lia.
Qed.

Lemma waypoint_points_lookup wps : forall arrival dwells i wp,
  length dwells = length wps ->
  wps !! i = Some wp ->
  waypoint_points wps arrival dwells !! i
  = Some (wp, arrival + sum_dwells (take i dwells)).
Proof.
  induction wps as [| w rest IH]; intros arrival [| d ds] i wp Hlen Hi;
    simpl in *; try discriminate.
  destruct i as [| i]; simpl in *.
  - injection Hi as ->. do 2 f_equal. lia.
  - pose proof (IH (arrival + d) ds i wp ltac:(lia) Hi) as IHi.
    etransitivity; [exact IHi |]. do 2 f_equal. lia.
Qed.

Lemma Forall2_length_eq {A B} (P : A -> B -> Prop) l k :
  Forall2 P l k -> length k = length l.
Proof. induction 1; simpl; congruence. Qed.

(** The clock and the location after a turn of the loop of [trace] that goes
    through: the dwells drawn at the start, the waypoints and the end of the
    chosen route are added to [Tc]. *)
Lemma trace_body_clock (self : TravelTracer) (s s' : trace_state) (g g' : rand) :
  trace_body self s g = Return (s', g') ->
  exists route d0 dwells d1,
    choose_route self (weekday (Tc s)) (Lc s) = Return route
    /\ in_visit_range (Route.start_at route) d0
    /\ Forall2 in_visit_range (Route.waypoints route) dwells
    /\ in_visit_range (Route.end_at route) d1
    /\ Tc s' = Tc s + d0 + sum_dwells dwells + d1
    /\ Lc s' = Route.end_at route.
Proof.
  unfold trace_body.
  destruct (choose_route self (weekday (Tc s)) (Lc s)) as [route | e]; [| discriminate].
  destruct (random_visit (Route.start_at route) g) as [[d0 g0] | e] eqn:H0;
    [| discriminate].
  destruct (trace_waypoints _ _ _ _) as [[[t pts] g1] | e] eqn:Hw; [| discriminate].
  destruct (random_visit (Route.end_at route) g1) as [[d1 g2] | e] eqn:H1;
    [| discriminate].
  intros [= <- <-]. apply trace_waypoints_spec in Hw as (dwells & Hr & _ & ->).
  apply random_visit_Return in H0, H1.
  exists route, d0, dwells, d1. simpl. auto 10.
Qed.

(** C4: in a turn of the loop of [trace] that goes through, the points added
    are the pings of the start of the chosen route, then exactly one point
    per waypoint, in route order, whatever the dwell drawn for it, then the
    pings of the end; the point of a waypoint carries the value [Tc] has when
    the waypoint is reached: the dwells of the waypoints before it are added,
    its own is not. *)
Theorem trace_body_waypoints (self : TravelTracer) (s s' : trace_state) (g g' : rand) :
  trace_body self s g = Return (s', g') ->
  exists route d0 dwells d1,
    choose_route self (weekday (Tc s)) (Lc s) = Return route
    /\ in_visit_range (Route.start_at route) d0
    /\ Forall2 in_visit_range (Route.waypoints route) dwells
    /\ in_visit_range (Route.end_at route) d1
    /\ let arrival := Tc s + d0 in
       let passed := waypoint_points (Route.waypoints route) arrival dwells in
       points s' =
         points s
         ++ map (pair (Route.start_at route))
                (generate_pings (Route.start_at route) (Tc s) d0)
         ++ passed
         ++ map (pair (Route.end_at route))
                (generate_pings (Route.end_at route) (arrival + sum_dwells dwells) d1)
       /\ map fst passed = Route.waypoints route
       /\ (forall i wp, Route.waypoints route !! i = Some wp ->
             passed !! i = Some (wp, arrival + sum_dwells (take i dwells)))
       /\ Tc s' = arrival + sum_dwells dwells + d1
       /\ Lc s' = Route.end_at route.
Proof.
  unfold trace_body.
  destruct (choose_route self (weekday (Tc s)) (Lc s)) as [route | e]; [| discriminate].
  destruct (random_visit (Route.start_at route) g) as [[d0 g0] | e] eqn:H0;
    [| discriminate].
  destruct (trace_waypoints _ _ _ _) as [[[t pts] g1] | e] eqn:Hw; [| discriminate].
  destruct (random_visit (Route.end_at route) g1) as [[d1 g2] | e] eqn:H1;
    [| discriminate].
  intros [= <- <-]. apply trace_waypoints_spec in Hw as (dwells & Hr & -> & ->).
  pose proof (Forall2_length_eq _ _ _ Hr) as Hlen.
  apply random_visit_Return in H0, H1.
  exists route, d0, dwells, d1. split; [reflexivity |].
  split; [exact H0 |]. split; [exact Hr |]. split; [exact H1 |].
  simpl. split; [| split; [| split; [| split]]].
  - now rewrite <- !app_assoc.
  - now apply waypoint_points_locations.
  - intros i wp Hi. now apply waypoint_points_lookup.
  - reflexivity.
  - reflexivity.
Qed.


(** ** The annotated trace and the trace *)

Lemma stop_entries_erase l Tc visit_time :
  map entry_point (stop_entries l Tc visit_time)
  = map (pair l) (generate_pings l Tc visit_time).
Proof. unfold stop_entries. rewrite map_map. reflexivity. Qed.

Lemma log_waypoints_erase wps : forall Tc log g,
  trace_waypoints wps Tc (map entry_point log) g
  = result_map (fun r => (fst (fst r), map entry_point (snd (fst r)), snd r))
               (log_waypoints wps Tc log g).
Proof.
  induction wps as [| wp rest IH]; intros Tc log g; simpl; [reflexivity |].
  destruct (random_visit wp g) as [[dwell g1] | e]; [| reflexivity].
  rewrite <- IH, map_app. reflexivity.
Qed.

Lemma log_body_erase self s g :
  trace_body self (erase s) g
  = result_map (fun r => (erase (fst r), snd r)) (log_body self s g).
Proof.
  unfold trace_body, log_body. simpl.
  destruct (choose_route _ _ _) as [route | e]; [| reflexivity].
  destruct (random_visit (Route.start_at route) g) as [[d0 g0] | e]; [| reflexivity].
  rewrite <- stop_entries_erase, <- map_app, log_waypoints_erase.
  destruct (log_waypoints _ _ _ _) as [[[t log] g1] | e]; [| reflexivity].
  simpl.
  destruct (random_visit (Route.end_at route) g1) as [[d1 g2] | e]; [| reflexivity].
  simpl. unfold erase. simpl. rewrite map_app, stop_entries_erase. reflexivity.
Qed.

Lemma trace_loop_erase fuel self end_time : forall s g,
  trace_loop fuel self end_time (erase s) g
  = option_map (result_map (map entry_point)) (log_loop fuel self end_time s g).
Proof.
  induction fuel as [| fuel IH]; intros s g; simpl;
    destruct (log_Tc s <? end_time); try reflexivity.
  rewrite log_body_erase.
  destruct (log_body self s g) as [[s1 g1] | e]; simpl; [apply IH | reflexivity].
Qed.

Lemma trace_erase fuel self start_at start_time end_time g :
  trace fuel self start_at start_time end_time g
  = option_map (result_map (map entry_point))
               (trace_log fuel self start_at start_time end_time g).
Proof.
  unfold trace, trace_log.
  destruct start_at; try reflexivity. destruct start_time; try reflexivity.
  destruct (if negb (truthy end_time) then _ else _); try reflexivity.
  apply (trace_loop_erase fuel self _ {| log_Tc := _; log_Lc := _; log_entries := [] |}).
Qed.

(** ** The order of the timestamps *)

Section Order.

Lemma Sorted_snoc {A} (R : A -> A -> Prop) l e :
  Sorted R l -> Forall (fun x => R x e) l -> Sorted R (l ++ [e]).
Proof.
  induction 1 as [| a l Hs IH Hd]; intros Hall; simpl.
  - repeat constructor.
  - inversion Hall as [| ? ? Hae Hl]; subst. constructor; [now apply IH |].
    destruct Hd; simpl; constructor; assumption.
Qed.

Lemma bounded_by_mono b b' e : b <= b' -> bounded_by b e -> bounded_by b' e.
Proof. unfold bounded_by. intros Hb [Hle Htie]. split; [lia |]. intros He. apply Htie. lia. Qed.

Lemma bounded_by_before b e : e_time e < b -> bounded_by b e.
Proof. unfold bounded_by. intros H. split; lia. Qed.

Lemma bounded_by_tie b e e' :
  bounded_by b e -> b <= e_time e' -> tie_after_waypoint e e'.
Proof. unfold bounded_by, tie_after_waypoint. intros [Hle Htie] Hb. split; [lia |]. intros He. apply Htie. lia. Qed.

Lemma log_inv_mono b b' log : b <= b' -> log_inv b log -> log_inv b' log.
Proof.
  intros Hb [Hs Hall]. split; [exact Hs |].
  eapply Forall_impl; [exact Hall |]. intros e. now apply bounded_by_mono.
Qed.

Lemma log_inv_snoc b log e :
  log_inv b log -> b <= e_time e -> Sorted tie_after_waypoint (log ++ [e]).
Proof.
  intros [Hs Hall] Hb. apply Sorted_snoc; [exact Hs |].
  eapply Forall_impl; [exact Hall |]. intros x Hx. eapply bounded_by_tie; eauto.
Qed.

Lemma log_inv_waypoint b log wp dwell :
  log_inv b log -> 0 <= dwell ->
  log_inv (b + dwell)
    (log ++ [{| e_kind := WaypointPass; e_loc := wp; e_time := b; e_dwell := dwell |}]).
Proof.
  intros Hinv Hd. split.
  - eapply log_inv_snoc; [exact Hinv | simpl; lia].
  - apply Forall_app. split.
    + eapply Forall_impl; [apply Hinv |]. intros e. apply bounded_by_mono. lia.
    + constructor; [| constructor]. unfold bounded_by. simpl. split; [lia |].
      intros He. split; [reflexivity | lia].
Qed.

Lemma log_inv_pings l visit_time n : forall t log,
  log_inv t log ->
  Sorted tie_after_waypoint
    (log ++ map (fun t => {| e_kind := StopPing; e_loc := l; e_time := t;
                             e_dwell := visit_time |}) (ping_times t n)).
Proof.
  induction n as [| n IH]; intros t log Hinv.
  - simpl. rewrite app_nil_r. apply Hinv.
  - rewrite ping_times_S. simpl.
    rewrite (app_assoc log [_] _ : log ++ _ :: _ = (log ++ [_]) ++ _).
    apply IH. split.
    + eapply log_inv_snoc; [exact Hinv | simpl; lia].
    + apply Forall_app. split.
      * eapply Forall_impl; [apply Hinv |]. intros e. apply bounded_by_mono.
        unfold VISIT_PING_TIME. lia.
      * constructor; [| constructor]. apply bounded_by_before. simpl.
        unfold VISIT_PING_TIME. lia.
Qed.

Lemma log_inv_stop b log l visit_time :
  log_inv b log -> 0 <= visit_time ->
  log_inv (b + visit_time) (log ++ stop_entries l b visit_time).
Proof.
  intros Hinv Hd. split.
  - unfold stop_entries. rewrite generate_pings_eq. now apply log_inv_pings.
  - apply Forall_app. split.
    + eapply Forall_impl; [apply Hinv |]. intros e. apply bounded_by_mono. lia.
    + unfold stop_entries. apply List.Forall_forall. intros e He.
      apply in_map_iff in He as (t & <- & Ht). apply generate_pings_lt in Ht.
      apply bounded_by_before. simpl. lia.
Qed.

Lemma log_waypoints_inv wps : forall Tc log g Tc' log' g',
  Forall valid_visit_time wps ->
  log_waypoints wps Tc log g = Return (Tc', log', g') ->
  log_inv Tc log -> log_inv Tc' log'.
Proof.
  induction wps as [| wp rest IH]; intros Tc log g Tc' log' g' Hv; simpl.
  - intros [= <- <- <-]. auto.
  - inversion Hv as [| ? ? Hwp Hrest]; subst.
    destruct (random_visit wp g) as [[dwell g1] | e] eqn:Hd; [| discriminate].
    intros H Hinv. eapply IH; [exact Hrest | exact H |].
    apply log_inv_waypoint; [exact Hinv |].
    apply random_visit_Return in Hd. unfold in_visit_range, valid_visit_time in *. lia.
Qed.

Lemma log_body_inv self s g s' g' :
  valid_routes (routes self) ->
  log_body self s g = Return (s', g') ->
  log_inv (log_Tc s) (log_entries s) -> log_inv (log_Tc s') (log_entries s').
Proof.
  intros Hv. unfold log_body.
  destruct (choose_route _ _ _) as [route | e] eqn:Hc; [| discriminate].
  apply choose_route_Return, first_best_In in Hc.
  destruct (random_visit (Route.start_at route) g) as [[d0 g0] | e] eqn:H0;
    [| discriminate].
  destruct (log_waypoints _ _ _ _) as [[[t log] g1] | e] eqn:Hw; [| discriminate].
  destruct (random_visit (Route.end_at route) g1) as [[d1 g2] | e] eqn:H1;
    [| discriminate].
  intros [= <- <-] Hinv. simpl.
  apply random_visit_Return in H0, H1.
  assert (Hs : valid_visit_time (Route.start_at route))
    by (apply (Hv route); [exact Hc | now left]).
  assert (He : valid_visit_time (Route.end_at route))
    by (apply (Hv route); [exact Hc | now right; right]).
  unfold in_visit_range, valid_visit_time in *.
  apply log_inv_stop; [| lia].
  eapply log_waypoints_inv; [| exact Hw |].
  - apply List.Forall_forall. intros wp Hwp.
    apply (Hv route); [exact Hc | now right; left].
  - apply log_inv_stop; [exact Hinv | lia].
Qed.

Lemma log_loop_inv fuel self end_time : forall s g log,
  valid_routes (routes self) ->
  log_loop fuel self end_time s g = Some (Return log) ->
  log_inv (log_Tc s) (log_entries s) ->
  Sorted tie_after_waypoint log.
Proof.
  induction fuel as [| fuel IH]; intros s g log Hv; simpl;
    destruct (log_Tc s <? end_time); try discriminate.
  - intros [= <-] Hinv. apply Hinv.
  - destruct (log_body self s g) as [[s1 g1] | e] eqn:Hb; [| discriminate].
    intros H Hinv. eapply IH; [exact Hv | exact H |].
    eapply log_body_inv; eauto.
  - intros [= <-] Hinv. apply Hinv.
Qed.

Lemma tie_after_waypoint_le log :
  Sorted tie_after_waypoint log -> Sorted Z.le (map snd (map entry_point log)).
Proof.
  induction 1 as [| e log Hs IH Hd]; simpl; constructor; [exact IH |].
  destruct Hd as [| e' log' [Hle _]]; simpl; constructor. exact Hle.
Qed.

End Order.

(** C5 (as amended): when the dwell ranges of the locations on the routes are
    non-negative with min <= max, the timestamps of the trace never decrease,
    and two adjacent points have the same timestamp only if the earlier one is
    the passage at a waypoint whose dwell was zero (the later one is the next
    waypoint, or the first ping of the stop that follows). *)
Theorem trace_timestamps_sorted (fuel : nat) (self : TravelTracer)
    (start_at start_time end_time : value) (g : rand) (pts : list point) :
  valid_routes (routes self) ->
  trace fuel self start_at start_time end_time g = Some (Return pts) ->
  Sorted Z.le (map snd pts)
  /\ exists log,
       trace_log fuel self start_at start_time end_time g = Some (Return log)
       /\ pts = map entry_point log
       /\ Sorted tie_after_waypoint log.
Proof.
  intros Hv. rewrite trace_erase.
  destruct (trace_log fuel self start_at start_time end_time g) as [[log | e] |] eqn:Hlog;
    try discriminate.
  intros [= <-].
  assert (Hs : Sorted tie_after_waypoint log).
  { unfold trace_log in Hlog.
    destruct start_at; try discriminate. destruct start_time; try discriminate.
    destruct (if negb (truthy end_time) then _ else _); try discriminate.
    eapply log_loop_inv; [exact Hv | exact Hlog |]. split; constructor. }
  split; [now apply tie_after_waypoint_le |].
  exists log. auto.
Qed.

(** ** Termination of the main loop *)

Section Termination.

Variables (self : TravelTracer) (stop : Z) (origin : Location.t).

Hypothesis positive_dwell :
  forall l, reachable (routes self) origin l -> 0 < fst (Location.visit_time l).

Lemma sum_dwells_nonneg wps : forall dwells,
  Forall2 in_visit_range wps dwells ->
  Forall (fun l => 0 <= fst (Location.visit_time l)) wps ->
  0 <= sum_dwells dwells.
Proof.
  induction 1 as [| wp d wps dwells Hd _ IH]; intros Hall; simpl; [lia |].
  inversion Hall; subst. unfold in_visit_range in Hd.
  specialize (IH ltac:(assumption)). lia.
Qed.

(** A turn that goes through moves the clock forward and stays among the
    reachable locations. *)
Lemma trace_body_progress s g s' g' :
  reachable (routes self) origin (Lc s) ->
  trace_body self s g = Return (s', g') ->
  Tc s < Tc s' /\ reachable (routes self) origin (Lc s').
Proof.
  intros Hreach Hbody.
  apply trace_body_clock in Hbody
  as (route & d0 & dwells & d1 & Hc & H0 & Hw & H1 & HTc & HLc).
  apply choose_route_Return in Hc.
  pose proof (first_best_In _ _ _ _ Hc) as Hin.
  destruct Hc as (He & _). unfold eligible in He.
  apply andb_prop in He as [He _].
  assert (Hon : forall l, on_route route l -> 0 < fst (Location.visit_time l)).
  { intros l Hl. apply positive_dwell. eapply reach_route; eauto. }
  split.
  - assert (0 <= sum_dwells dwells).
    { eapply sum_dwells_nonneg; [exact Hw |]. apply List.Forall_forall.
      intros wp Hwp. apply Z.lt_le_incl, Hon. right. now left. }
    pose proof (Hon (Route.start_at route) ltac:(now left)).
    pose proof (Hon (Route.end_at route) ltac:(now right; right)).
    unfold in_visit_range in H0, H1. lia.
  - rewrite HLc. eapply reach_route; eauto. right. now right.
Qed.

Lemma trace_loop_terminates fuel : forall s g,
  reachable (routes self) origin (Lc s) ->
  (Z.to_nat (stop - Tc s) <= fuel)%nat ->
  exists r, trace_loop fuel self stop s g = Some r.
Proof.
  induction fuel as [| fuel IH]; intros s g Hreach Hfuel; simpl;
    destruct (Z.ltb_spec (Tc s) stop); try (eexists; reflexivity); [lia |].
  destruct (trace_body self s g) as [[s' g'] | e] eqn:Hbody;
    [| eexists; reflexivity].
  destruct (trace_body_progress _ _ _ _ Hreach Hbody) as [Hlt Hreach'].
  apply IH; [exact Hreach' | lia].
Qed.

End Termination.

(** More fuel does not change the outcome of a run that ended. *)
Lemma trace_loop_more_fuel self stop fuel : forall fuel' s g r,
  trace_loop fuel self stop s g = Some r ->
  (fuel <= fuel')%nat ->
  trace_loop fuel' self stop s g = Some r.
Proof.
  induction fuel as [| fuel IH]; intros fuel' s g r; simpl.
  - destruct (Tc s <? stop) eqn:Hlt; [discriminate |].
    intros H _. destruct fuel'; simpl; now rewrite Hlt.
  - destruct (Tc s <? stop) eqn:Hlt.
    + destruct fuel' as [| fuel']; [lia |]. simpl. rewrite Hlt.
      destruct (trace_body self s g) as [[s' g'] | e]; [| auto].
      intros H Hle. apply IH; [exact H | lia].
    + intros H _. destruct fuel'; simpl; now rewrite Hlt.
Qed.

(** C6 (as amended): when the dwell minimum of every location reachable from
    the start location is strictly positive, [trace] terminates, with a list
    of points or an exception, whatever the start location, the start time,
    the end time and the random draws: some amount of fuel is enough, and
    any larger amount gives the same outcome. *)
Theorem trace_terminates (self : TravelTracer) (start_at start_time end_time : value)
    (g : rand) :
  (forall origin l,
      start_at = VLocation origin ->
      reachable (routes self) origin l -> 0 < fst (Location.visit_time l)) ->
  exists fuel r, forall fuel',
    (fuel <= fuel')%nat ->
    trace fuel' self start_at start_time end_time g = Some r.
Proof.
  intros Hpos. unfold trace.
  destruct start_at as [| | | | | | origin |]; try (exists 0%nat; eexists; reflexivity).
  destruct start_time as [| | | | | | | start]; try (exists 0%nat; eexists; reflexivity).
  destruct (if negb (truthy end_time) then _ else _) as [| | | | | | | stop];
    try (exists 0%nat; eexists; reflexivity).
  set (s0 := {| Tc := start; Lc := origin; points := [] |}).
  destruct (trace_loop_terminates self stop origin (fun l => Hpos origin l eq_refl)
              (Z.to_nat (stop - start)) s0 g (reach_start _ _) (le_n _)) as [r Hr].
  exists (Z.to_nat (stop - start)), r. intros fuel' Hle.
  eapply trace_loop_more_fuel; eauto.
Qed.

Lemma reachable_HH l :
  reachable (routes Sample.tracer_HH) Sample.loc_H l -> l = Sample.loc_H.
Proof.
  induction 1 as [| l l' r _ IH Hin _ Hon]; [reflexivity |].
  simpl in Hin. destruct Hin as [<- | []].
  unfold on_route in Hon. simpl in Hon.
  destruct Hon as [-> | [[] | ->]]; reflexivity.
Qed.

Lemma trace_terminates_witness :
  exists fuel r, forall fuel',
    (fuel <= fuel')%nat ->
    trace fuel' Sample.tracer_HH (VLocation Sample.loc_H)
      (VDatetime Sample.new_year) VNone Sample.draws = Some r.
Proof.
  apply trace_terminates. intros origin l [= <-] Hl.
  apply reachable_HH in Hl. subst l. simpl. lia.
Defined.

(** The outcome of the sample run: 24 turns of one hour at [H] twice. *)
Example trace_HH_length :
  option_map (result_map (@length point))
    (trace 24 Sample.tracer_HH (VLocation Sample.loc_H)
       (VDatetime Sample.new_year) VNone Sample.draws)
  = Some (Return 144%nat).
Proof. vm_compute. reflexivity. Qed.

(** *** A cycle of zero dwells *)

Lemma weekday_every_day t : existsb (Z.eqb (weekday t)) (range 7) = true.
Proof.
  assert (Hw : 0 <= weekday t < 7) by (unfold weekday; apply Z.mod_pos_bound; lia).
  apply existsb_exists. exists (weekday t). split; [| apply Z.eqb_refl].
  unfold range. apply in_map_iff. exists (Z.to_nat (weekday t)).
  split; [lia |]. apply in_seq. lia.
Qed.

Lemma choose_route_ZZ t :
  choose_route Sample.tracer_ZZ (weekday t) Sample.loc_Z = Return Sample.route_ZZ.
Proof.
  unfold choose_route. cbn [routes Sample.tracer_ZZ choose_route_loop].
  unfold eligible at 1. cbn [Route.weekdays Route.start_at Sample.route_ZZ].
  rewrite weekday_every_day. reflexivity.
Qed.

Lemma trace_body_ZZ t pts g :
  trace_body Sample.tracer_ZZ {| Tc := t; Lc := Sample.loc_Z; points := pts |} g
  = Return ({| Tc := t; Lc := Sample.loc_Z; points := pts |}, rand_tail (rand_tail g)).
Proof.
  unfold trace_body. cbn [Tc Lc points]. rewrite choose_route_ZZ.
  cbn [Route.start_at Route.end_at Route.waypoints Sample.route_ZZ].
  rewrite (random_visit_fixed Sample.loc_Z g 0 eq_refl).
  cbn [trace_waypoints].
  rewrite (random_visit_fixed Sample.loc_Z (rand_tail g) 0 eq_refl).
  rewrite !generate_pings_eq. simpl. rewrite !app_nil_r, !Z.add_0_r. reflexivity.
Qed.

Lemma trace_loop_ZZ fuel : forall t stop pts g,
  t < stop ->
  trace_loop fuel Sample.tracer_ZZ stop
    {| Tc := t; Lc := Sample.loc_Z; points := pts |} g = None.
Proof.
  induction fuel as [| fuel IH]; intros t stop pts g Hlt; simpl;
    destruct (Z.ltb_spec t stop); try lia; [reflexivity |].
  rewrite trace_body_ZZ. now apply IH.
Qed.

(** C6, the claim as stated fails: on a cycle of routes whose dwells are all
    (0,0), no turn of the loop moves [Tc], and [trace] ends for no amount of
    fuel and no random draws. *)
Lemma zero_dwell_cycle_never_ends :
  ~ exists fuel g r,
      trace fuel Sample.tracer_ZZ (VLocation Sample.loc_Z)
        (VDatetime Sample.new_year) VNone g = Some r.
Proof.
  intros (fuel & g & r & H). unfold trace in H. simpl in H.
  rewrite trace_loop_ZZ in H by lia. discriminate.
Qed.

(** ** Route exhaustion *)

Lemma trace_loop_turns self stop k : forall s0 g0 s g fuel,
  turns k self stop s0 g0 = Some (s, g) ->
  trace_loop (k + fuel) self stop s0 g0 = trace_loop fuel self stop s g.
Proof.
  induction k as [| k IH]; intros s0 g0 s g fuel; simpl.
  - intros [= <- <-]. reflexivity.
  - destruct (Tc s0 <? stop); [| discriminate].
    destruct (trace_body self s0 g0) as [[s1 g1] | e]; [| discriminate].
    apply IH.
Qed.

Lemma trace_loop_no_route self stop fuel s g :
  Tc s < stop ->
  Forall (beats_none (weekday (Tc s)) (Lc s) 0%float) (routes self) ->
  trace_loop (S fuel) self stop s g
  = Some (Raise (NoAvailableRouteError
                   ("Starting at location '" +:+ Location.name (Lc s) +:+ "'"))).
Proof.
  intros Hlt Hnone. simpl. destruct (Z.ltb_spec (Tc s) stop); [| lia].
  unfold trace_body. rewrite (choose_route_none _ _ _ Hnone). reflexivity.
Qed.

(** C1 (as amended): when, after [k] complete turns of the loop, the clock is
    still before the end time and no route eligible at the current location
    and weekday has a positive probability, [trace] does not return the
    points gathered so far: the [NoAvailableRouteError] of [choose_route],
    with the name of the current location, reaches the caller. *)
Theorem trace_propagates_no_route (self : TravelTracer) (origin : Location.t)
    (start stop : Z) (g0 : rand) (k fuel : nat) (s : trace_state) (g : rand) :
  turns k self stop {| Tc := start; Lc := origin; points := [] |} g0 = Some (s, g) ->
  Tc s < stop ->
  Forall (beats_none (weekday (Tc s)) (Lc s) 0%float) (routes self) ->
  (k < fuel)%nat ->
  trace fuel self (VLocation origin) (VDatetime start) (VDatetime stop) g0
  = Some (Raise (NoAvailableRouteError
                   ("Starting at location '" +:+ Location.name (Lc s) +:+ "'"))).
Proof.
  intros Hturns Hlt Hnone Hfuel. unfold trace. simpl.
  replace fuel with (k + S (fuel - k - 1))%nat by lia.
  rewrite (trace_loop_turns _ _ _ _ _ _ _ _ Hturns).
  now apply trace_loop_no_route.
Qed.

Lemma trace_propagates_no_route_witness :
  trace 2 Sample.tracer_AB (VLocation Sample.loc_A) (VDatetime Sample.new_year)
    (VDatetime (Sample.new_year + 86400)) Sample.draws
  = Some (Raise (NoAvailableRouteError "Starting at location 'B'")).
Proof.
  apply (trace_propagates_no_route Sample.tracer_AB Sample.loc_A Sample.new_year
           (Sample.new_year + 86400) Sample.draws 1 2
           {| Tc := Sample.new_year + 600; Lc := Sample.loc_B;
              points := [(Sample.loc_A, Sample.new_year)] |}
           (rand_tail (rand_tail Sample.draws))).
  - vm_compute. reflexivity.
  - vm_compute. reflexivity.
  - constructor; [| constructor]. intros H. vm_compute in H. discriminate.
  - lia.
Defined.

(** C1, the claim as stated fails: from [A] (dwell 600) with the single route
    [A -> B], the first turn gathers the point of [A]; at [B] no route is
    eligible, and [trace] ends with the exception, not with that point. *)
Lemma trace_AB_raises :
  turns 1 Sample.tracer_AB (Sample.new_year + 86400)
    {| Tc := Sample.new_year; Lc := Sample.loc_A; points := [] |} Sample.draws
  = Some ({| Tc := Sample.new_year + 600; Lc := Sample.loc_B;
             points := [(Sample.loc_A, Sample.new_year)] |},
          rand_tail (rand_tail Sample.draws))
  /\ trace 2 Sample.tracer_AB (VLocation Sample.loc_A) (VDatetime Sample.new_year)
       VNone Sample.draws
     = Some (Raise (NoAvailableRouteError "Starting at location 'B'"))
  /\ trace 2 Sample.tracer_AB (VLocation Sample.loc_A) (VDatetime Sample.new_year)
       VNone Sample.draws
     <> Some (Return [(Sample.loc_A, Sample.new_year)]).
Proof.
  split; [vm_compute; reflexivity |]. split; [vm_compute; reflexivity |].
  vm_compute. discriminate.
Qed.

(** ** Strings *)

Module StrFacts.

Lemma endswith_snoc body c c' :
  Str.endswith (body +:+ String c EmptyString) c' = Ascii.eqb c c'.
Proof.
  induction body as [| a body IH]; simpl; [reflexivity |].
  rewrite <- IH. destruct body; reflexivity.
Qed.

Lemma init_snoc body c : Str.init (body +:+ String c EmptyString) = body.
Proof.
  induction body as [| a body IH]; simpl; [reflexivity |].
  rewrite IH. destruct body; reflexivity.
Qed.

Lemma endswith_init s c :
  Str.endswith s c = true -> s = Str.init s +:+ String c EmptyString.
Proof.
  induction s as [| a s IH]; simpl; [discriminate |].
  destruct s as [| b s].
  - intros H. apply Ascii.eqb_eq in H. now subst.
  - intros H.
    change (String a (String b s)
            = String a (Str.init (String b s) +:+ String c EmptyString)).
    f_equal. now apply IH.
Qed.

Lemma endswith_cons a s c : s <> EmptyString -> Str.endswith (String a s) c = Str.endswith s c.
Proof. destruct s; [congruence | reflexivity]. Qed.

Lemma all_space_last s c :
  Str.all_space s = true -> Str.endswith s c = true -> Str.is_space c = true.
Proof.
  induction s as [| a s IH]; simpl; [discriminate |].
  intros H. apply andb_prop in H as [Ha Hs]. destruct s as [| b s].
  - intros Hc. apply Ascii.eqb_eq in Hc. now subst.
  - now apply IH.
Qed.

(** The text [Str.digits] accepts ends with a digit or a white space. *)
Lemma digits_last s : forall acc n c,
  Str.digits acc s = Some n ->
  Str.endswith s c = true ->
  Str.is_digit c || Str.is_space c = true.
Proof.
  induction s as [| a s IH]; intros acc n c; [discriminate 2 |].
  cbn [Str.digits]. destruct (Str.is_digit a) eqn:Ha.
  - destruct s as [| b s].
    + simpl. intros _ Hc. apply Ascii.eqb_eq in Hc. subst. now rewrite Ha.
    + intros Hd Hc. rewrite endswith_cons in Hc by discriminate. eapply IH; eauto.
  - destruct (Str.all_space (String a s)) eqn:Hs; [| discriminate].
    intros _ Hc. rewrite (all_space_last _ _ Hs Hc). apply orb_true_r.
Qed.

Lemma unsigned_last s n c :
  Str.unsigned s = Some n ->
  Str.endswith s c = true ->
  Str.is_digit c || Str.is_space c = true.
Proof.
  unfold Str.unsigned. destruct s as [| a s]; [discriminate |].
  destruct (Str.is_digit a); [| discriminate]. apply digits_last.
Qed.

Lemma unsigned_nonempty s n : Str.unsigned s = Some n -> s <> EmptyString.
Proof. destruct s; [discriminate | discriminate 2]. Qed.

Lemma endswith_lstrip s c :
  Str.lstrip s <> EmptyString -> Str.endswith s c = Str.endswith (Str.lstrip s) c.
Proof.
  induction s as [| a s IH]; [reflexivity |].
  cbn [Str.lstrip]. destruct (Str.is_space a); [| reflexivity].
  intros Hne. rewrite <- IH by exact Hne. apply endswith_cons.
  intros ->. now apply Hne.
Qed.

(** A text [int] accepts ends with a digit or a white space. *)
Lemma int_last s n c :
  Str.int s = Some n ->
  Str.endswith s c = true ->
  Str.is_digit c || Str.is_space c = true.
Proof.
  unfold Str.int. intros Hint Hc.
  assert (Hcases : exists t m, Str.unsigned t = Some m
                               /\ Str.endswith (Str.lstrip s) c = Str.endswith t c
                               /\ Str.lstrip s <> EmptyString).
  { destruct (Str.lstrip s) as [| a t] eqn:Hl; [discriminate |].
    destruct (Ascii.eqb_spec a "+") as [-> | Hplus].
    - exists t, n. split; [exact Hint |]. split; [| discriminate].
      apply endswith_cons. eapply unsigned_nonempty; eauto.
    - destruct (Ascii.eqb_spec a "-") as [-> | Hminus].
      + destruct (Str.unsigned t) as [m |] eqn:Hu; [| discriminate].
        exists t, m. split; [exact Hu |]. split; [| discriminate].
        apply endswith_cons. eapply unsigned_nonempty; eauto.
      + exists (String a t), n. split; [| split; [reflexivity | discriminate]].
        destruct a as [[] [] [] [] [] [] [] []]; try exact Hint; congruence. }
  destruct Hcases as (t & m & Hu & He & Hne).
  rewrite (endswith_lstrip _ _ Hne), He in Hc. eapply unsigned_last; eauto.
Qed.

Lemma int_not_unit s n c :
  Str.int s = Some n ->
  Str.is_digit c || Str.is_space c = false ->
  Str.endswith s c = false.
Proof.
  intros Hint Hc. destruct (Str.endswith s c) eqn:He; [| reflexivity].
  rewrite (int_last _ _ _ Hint He) in Hc. discriminate.
Qed.

Lemma split_not_nil sep s : Str.split sep s <> [].
Proof.
  destruct s as [| a s]; simpl; [discriminate |].
  destruct (Ascii.eqb a sep); [discriminate |].
  destruct (Str.split sep s); discriminate.
Qed.

End StrFacts.

(** ** Dwell ranges in the configuration *)

Lemma parse_visit_part_endpoint part n :
  parse_visit_part part = Some n <-> endpoint part n.
Proof.
  unfold parse_visit_part, endpoint, with_unit. split.
  - destruct (Str.endswith part "h") eqn:Hh;
      [| destruct (Str.endswith part "m") eqn:Hm;
         [| destruct (Str.endswith part "s") eqn:Hs]].
    + destruct (Str.int (Str.init part)) as [k |] eqn:Hk; [| discriminate].
      intros [= <-]. left. exists (Str.init part), k.
      split; [now apply StrFacts.endswith_init | auto].
    + destruct (Str.int (Str.init part)) as [k |] eqn:Hk; [| discriminate].
      intros [= <-]. right. left. exists (Str.init part), k.
      split; [now apply StrFacts.endswith_init | auto].
    + intros Hk. right. right. left. exists (Str.init part), n.
      split; [now apply StrFacts.endswith_init |]. split; [exact Hk | lia].
    + intros Hk. right. right. right. exact Hk.
  - intros [(body & k & -> & Hk & ->) | [(body & k & -> & Hk & ->)
             | [(body & k & -> & Hk & ->) | Hk]]];
      rewrite ?StrFacts.endswith_snoc, ?StrFacts.init_snoc; simpl.
    + now rewrite Hk.
    + now rewrite Hk.
    + rewrite Hk. f_equal. lia.
    + rewrite !(StrFacts.int_not_unit _ _ _ Hk) by reflexivity. exact Hk.
Qed.

Lemma parse_visit_parts_pair p1 p2 lo hi :
  parse_visit_parts [p1; p2] = Some [lo; hi] <-> endpoint p1 lo /\ endpoint p2 hi.
Proof.
  rewrite <- !parse_visit_part_endpoint. simpl.
  destruct (parse_visit_part p1) as [a |]; [| split; [discriminate | intros [[=] _]]].
  destruct (parse_visit_part p2) as [b |]; simpl;
    [| split; [discriminate | intros [_ [=]]]].
  split; [intros [= <- <-]; auto | intros [[= <-] [= <-]]; reflexivity].
Qed.

Lemma parse_visit_time_Return visit_time location lo hi :
  parse_visit_time visit_time location = Return (lo, hi)
  <-> visit_time_shape visit_time lo hi.
Proof.
  unfold parse_visit_time, visit_time_shape.
  set (parts := Str.split "," (Str.remove_spaces visit_time)). split.
  - destruct (Nat.eqb_spec (length parts) 2) as [Hlen | Hlen]; simpl; [| discriminate].
    destruct parts as [| p1 [| p2 [| p3 parts]]]; try discriminate.
    destruct (parse_visit_parts [p1; p2]) as [[| a [| b [| c ns]]] |] eqn:Hp;
      try discriminate.
    intros [= <- <-]. exists p1, p2. split; [reflexivity |].
    now apply parse_visit_parts_pair.
  - intros (p1 & p2 & -> & H). apply parse_visit_parts_pair in H.
    cbn [length Nat.eqb negb]. now rewrite H.
Qed.

(** C9: a [visit_time] text that, spaces removed, splits on commas into
    exactly two parts, each an integer (as [int] reads it) bare or followed by
    [h], [m] or [s], parses to the pair of its values in seconds: [h] counts
    3600, [m] 60, [s] and a bare integer 1; any other text raises a
    [ValueError] whose message names the text and the location. *)
Theorem parse_visit_time_spec (visit_time location : string) :
  (forall lo hi,
      visit_time_shape visit_time lo hi ->
      parse_visit_time visit_time location = Return (lo, hi))
  /\ ((forall lo hi, ~ visit_time_shape visit_time lo hi) ->
      parse_visit_time visit_time location
      = Raise (ValueError ("Invalid visit_time '" +:+ visit_time
                           +:+ "' for location '" +:+ location +:+ "'"))).
Proof.
  split.
  - intros lo hi. apply parse_visit_time_Return.
  - intros Hno.
    destruct (parse_visit_time visit_time location) as [[lo hi] | e] eqn:Hp.
    + apply parse_visit_time_Return in Hp. now apply Hno in Hp.
    + revert Hp. unfold parse_visit_time.
      destruct (if negb _ then _ else _) as [[| a [| b [| c ns]]] |];
        congruence.
Qed.

Example parse_visit_time_units :
  parse_visit_time "1h, 30m" "A" = Return (3600, 1800)
  /\ parse_visit_time "45s,90" "A" = Return (45, 90)
  /\ parse_visit_time "10" "A"
     = Raise (ValueError "Invalid visit_time '10' for location 'A'")
  /\ parse_visit_time "1h,2x" "A"
     = Raise (ValueError "Invalid visit_time '1h,2x' for location 'A'").
Proof. repeat split; vm_compute; reflexivity. Qed.

(** ** Weekdays in the configuration *)

Lemma parse_weekdays_loop_spec parts name : forall res,
  Forall in_week res ->
  match parse_weekdays_loop parts name res with
  | Return days =>
      Forall in_week days /\ length days = (length res + length parts)%nat
  | Raise e => e = ValueError ("Invalid weekdays for route '" +:+ name +:+ "'")
  end.
Proof.
  induction parts as [| part rest IH]; intros res Hres; simpl.
  - split; [exact Hres | lia].
  - destruct (Str.int part) as [day |]; [| reflexivity].
    destruct (Z.ltb_spec day 0); [reflexivity |].
    destruct (Z.ltb_spec 6 day); [reflexivity |]. simpl.
    specialize (IH (res ++ [day])).
    destruct (parse_weekdays_loop rest name (res ++ [day])) as [days | e].
    + rewrite length_app in IH. simpl in IH.
      destruct IH as [Hd Hl]; [| split; [exact Hd | lia]].
      apply Forall_app. split; [exact Hres |]. constructor; [| constructor].
      unfold in_week. lia.
    + apply IH. apply Forall_app. split; [exact Hres |].
      constructor; [| constructor]. unfold in_week. lia.
Qed.

Lemma parse_weekdays_Return weekdays name days :
  parse_weekdays weekdays name = Return days ->
  Forall in_week days /\ days <> [].
Proof.
  unfold parse_weekdays. intros H.
  pose proof (parse_weekdays_loop_spec
                (Str.split "," (Str.remove_spaces weekdays)) name [] ltac:(constructor)) as Hs.
  rewrite H in Hs. destruct Hs as [Hd Hl]. split; [exact Hd |].
  intros ->. simpl in Hl.
  destruct (Str.split "," (Str.remove_spaces weekdays)) eqn:Hsplit; [| discriminate].
  now apply StrFacts.split_not_nil in Hsplit.
Qed.

Lemma parse_weekdays_Raise weekdays name e :
  parse_weekdays weekdays name = Raise e ->
  e = ValueError ("Invalid weekdays for route '" +:+ name +:+ "'").
Proof.
  unfold parse_weekdays. intros H.
  pose proof (parse_weekdays_loop_spec
                (Str.split "," (Str.remove_spaces weekdays)) name [] ltac:(constructor)) as Hs.
  now rewrite H in Hs.
Qed.

(** ** The route constructor *)

(** The weekdays a route ends up with. *)
Lemma Route_init_weekdays name start_at end_at waypoints probability weekdays r :
  Route.init name start_at end_at waypoints probability weekdays = Return r ->
  Route.weekdays r = match weekdays with
                     | Some ((_ :: _) as ws) => ws
                     | _ => range 8
                     end.
Proof.
  unfold Route.init. destruct start_at; try discriminate.
  destruct (truthy waypoints && _); [discriminate |].
  destruct end_at; try discriminate. destruct probability; try discriminate.
  destruct (PrimFloat.ltb _ _ && _); [discriminate |].
  destruct (Route.check_waypoints _ _ _); [| discriminate].
  intros [= <-]. reflexivity.
Qed.

Lemma Route_init_float name a b p weekdays :
  Route.init name (VLocation a) (VLocation b) VNone (VFloat p) weekdays
  = Return {| Route.name := name; Route.start_at := a; Route.waypoints := [];
              Route.end_at := b; Route.probability := p;
              Route.weekdays := match weekdays with
                                | Some ((_ :: _) as ws) => ws
                                | _ => range 8
                                end |}.
Proof.
  unfold Route.init. simpl. now rewrite FloatOrder.not_below_0_and_above_1.
Qed.

Section LoaderFacts.

Variable float_of : string -> result float.

(** The weekdays [load_route] hands to the constructor. *)
Lemma load_route_weekdays locations route options r :
  load_route float_of locations route options = Return r ->
  match options !! "weekdays" with
  | Some text => exists days, parse_weekdays text route = Return days
                              /\ Route.weekdays r = days
  | None => Route.weekdays r = range 8
  end.
Proof.
  unfold load_route.
  destruct (config_get _ options "start_at"); [| discriminate]. cbn [result_bind].
  destruct (lookup_location locations route _); [| discriminate]. cbn [result_bind].
  destruct (config_get _ options "end_at"); [| discriminate]. cbn [result_bind].
  destruct (lookup_location locations route _); [| discriminate]. cbn [result_bind].
  destruct (optional options "waypoints" _); [| discriminate]. cbn [result_bind].
  destruct (optional options "probability" _); [| discriminate]. cbn [result_bind].
  unfold optional at 1. destruct (options !! "weekdays") as [text |].
  - destruct (parse_weekdays text route) as [days |] eqn:Hp; [| discriminate].
    cbn [result_map result_bind]. intros H. apply Route_init_weekdays in H.
    exists days. split; [reflexivity |].
    apply parse_weekdays_Return in Hp as [_ Hne].
    destruct days; [congruence | exact H].
  - cbn [result_bind]. apply Route_init_weekdays.
Qed.

End LoaderFacts.

(** C10: [parse_weekdays] either raises or returns integers that are all
    between 0 and 6; so a route loaded from a section that has a [weekdays]
    option is active on days between 0 and 6 only, and a loaded route that is
    active on day 7 comes from a section without that option. *)
Theorem parse_weekdays_in_week (float_of : string -> result float)
    (locations : gmap string Location.t) (route : string)
    (options : gmap string string) (weekdays : string) :
  match parse_weekdays weekdays route with
  | Return days => Forall in_week days
  | Raise e => e = ValueError ("Invalid weekdays for route '" +:+ route +:+ "'")
  end
  /\ (forall r,
        load_route float_of locations route options = Return r ->
        (is_Some (options !! "weekdays") -> Forall in_week (Route.weekdays r))
        /\ (In 7 (Route.weekdays r) -> options !! "weekdays" = None)).
Proof.
  split.
  - destruct (parse_weekdays weekdays route) as [days | e] eqn:Hp.
    + now apply parse_weekdays_Return in Hp.
    + now apply parse_weekdays_Raise in Hp.
  - intros r Hr. apply load_route_weekdays in Hr.
    destruct (options !! "weekdays") as [text |].
    + destruct Hr as (days & Hp & ->). apply parse_weekdays_Return in Hp as [Hd _].
      split; [intros _; exact Hd |].
      intros H7. rewrite List.Forall_forall in Hd. apply Hd in H7.
      unfold in_week in H7. lia.
    + split; [intros [x [=]] | reflexivity].
Qed.

Example parse_weekdays_samples :
  parse_weekdays "0, 1,6" "r" = Return [0; 1; 6]
  /\ parse_weekdays "0,7" "r" = Raise (ValueError "Invalid weekdays for route 'r'")
  /\ parse_weekdays "" "r" = Raise (ValueError "Invalid weekdays for route 'r'").
Proof. repeat split; vm_compute; reflexivity. Qed.

(** C7, on the code: a route built without [weekdays] is active on the eight
    values 0 to 7, not on the seven days 0 to 6; so is a route loaded from a
    section without a [weekdays] option. *)
Theorem route_default_weekdays (name : string)
    (start_at end_at waypoints probability : value) :
  match Route.init name start_at end_at waypoints probability None with
  | Return r => Route.weekdays r = [0; 1; 2; 3; 4; 5; 6; 7]
  | Raise _ => True
  end
  /\ (forall float_of locations options r,
        options !! "weekdays" = None ->
        load_route float_of locations name options = Return r ->
        Route.weekdays r = [0; 1; 2; 3; 4; 5; 6; 7])
  /\ Route.init "A->B" (VLocation Sample.loc_A) (VLocation Sample.loc_B)
       VNone (VFloat 1) None
     = Return (Route.mk "A->B" Sample.loc_A [] Sample.loc_B 1 [0; 1; 2; 3; 4; 5; 6; 7]).
Proof.
  split; [| split].
  - destruct (Route.init _ _ _ _ _ _) as [r | e] eqn:Hr; [| exact I].
    now apply Route_init_weekdays in Hr.
  - intros float_of locs options r Hnone Hr.
    apply load_route_weekdays in Hr. now rewrite Hnone in Hr.
  - vm_compute. reflexivity.
Qed.

(** C8, on the code: the constructor rejects no float as a probability,
    whether inside or outside [0,1]: 1.5 and -0.5 make routes. *)
Theorem route_init_accepts_any_float (name : string) (a b : Location.t) (p : float)
    (weekdays : option (list Z)) :
  (exists r,
      Route.init name (VLocation a) (VLocation b) VNone (VFloat p) weekdays = Return r
      /\ Route.probability r = p)
  /\ Route.init "A->B" (VLocation Sample.loc_A) (VLocation Sample.loc_B) VNone
       (VFloat 1.5) None
     = Return (Route.mk "A->B" Sample.loc_A [] Sample.loc_B 1.5 (range 8))
  /\ Route.init "A->B" (VLocation Sample.loc_A) (VLocation Sample.loc_B) VNone
       (VFloat (-0.5)) None
     = Return (Route.mk "A->B" Sample.loc_A [] Sample.loc_B (-0.5) (range 8)).
Proof.
  split; [| split].
  - eexists. split; [apply Route_init_float | reflexivity].
  - vm_compute. reflexivity.
  - vm_compute. reflexivity.
Qed.

(** ** The sample runs *)

Example choose_route_ties :
  choose_route SampleRun.tracer_ties 0 Sample.loc_A = Return SampleRun.route_first
  /\ choose_route SampleRun.tracer_ties 0 Sample.loc_B
     = Raise (NoAvailableRouteError "Starting at location 'B'")
  /\ choose_route SampleRun.tracer_ties 7 Sample.loc_A
     = Raise (NoAvailableRouteError "Starting at location 'A'").
Proof. repeat split; vm_compute; reflexivity. Qed.

Lemma trace_body_waypoints_witness :
  exists route d0 dwells d1,
    choose_route Sample.tracer_CWD (weekday (Tc SampleRun.before)) (Lc SampleRun.before)
    = Return route
    /\ in_visit_range (Route.start_at route) d0
    /\ Forall2 in_visit_range (Route.waypoints route) dwells
    /\ in_visit_range (Route.end_at route) d1
    /\ let arrival := Tc SampleRun.before + d0 in
       let passed := waypoint_points (Route.waypoints route) arrival dwells in
       points SampleRun.after =
         points SampleRun.before
         ++ map (pair (Route.start_at route))
                (generate_pings (Route.start_at route) (Tc SampleRun.before) d0)
         ++ passed
         ++ map (pair (Route.end_at route))
                (generate_pings (Route.end_at route) (arrival + sum_dwells dwells) d1)
       /\ map fst passed = Route.waypoints route
       /\ (forall i wp, Route.waypoints route !! i = Some wp ->
             passed !! i = Some (wp, arrival + sum_dwells (take i dwells)))
       /\ Tc SampleRun.after = arrival + sum_dwells dwells + d1
       /\ Lc SampleRun.after = Route.end_at route.
Proof.
  apply (trace_body_waypoints Sample.tracer_CWD SampleRun.before SampleRun.after
           Sample.draws (rand_tail (rand_tail (rand_tail Sample.draws)))).
  vm_compute. reflexivity.
Defined.

Lemma valid_routes_CWD : valid_routes (routes Sample.tracer_CWD).
Proof.
  intros r l Hr Hl. simpl in Hr. destruct Hr as [<- | []].
  unfold on_route in Hl. simpl in Hl.
  destruct Hl as [-> | [[<- | []] | ->]]; unfold valid_visit_time; simpl; lia.
Qed.

Lemma trace_timestamps_sorted_witness :
  Sorted Z.le (map snd (points SampleRun.after))
  /\ exists log,
       trace_log 1 Sample.tracer_CWD (VLocation Sample.loc_C)
         (VDatetime Sample.new_year) (VDatetime (Sample.new_year + 1)) Sample.draws
       = Some (Return log)
       /\ points SampleRun.after = map entry_point log
       /\ Sorted tie_after_waypoint log.
Proof.
  apply (trace_timestamps_sorted 1 Sample.tracer_CWD (VLocation Sample.loc_C)
           (VDatetime Sample.new_year) (VDatetime (Sample.new_year + 1)) Sample.draws).
  - exact valid_routes_CWD.
  - vm_compute. reflexivity.
Defined.

(** C5, the claim as stated fails: with dwell ranges that are non-negative
    and ordered, the passage at the waypoint [W] (dwell 0) and the first ping
    of the dwell at [D] (dwell 600) are adjacent in the trace and have the
    same timestamp, and the later of the two is not a single-instant entry. *)
Lemma tie_with_stop_ping :
  valid_routes (routes Sample.tracer_CWD)
  /\ trace 1 Sample.tracer_CWD (VLocation Sample.loc_C)
       (VDatetime Sample.new_year) (VDatetime (Sample.new_year + 1)) Sample.draws
     = Some (Return [(Sample.loc_W, Sample.new_year); (Sample.loc_D, Sample.new_year)])
  /\ trace_log 1 Sample.tracer_CWD (VLocation Sample.loc_C)
       (VDatetime Sample.new_year) (VDatetime (Sample.new_year + 1)) Sample.draws
     = Some (Return SampleRun.log)
  /\ ~ Sorted tie_between_waypoints SampleRun.log.
Proof.
  split; [exact valid_routes_CWD |].
  split; [vm_compute; reflexivity |]. split; [vm_compute; reflexivity |].
  intros Hs. inversion Hs as [| e l _ Hd]; subst.
  inversion Hd as [| e' l' [_ Htie]]; subst.
  destruct (Htie eq_refl) as (_ & Hk & _). discriminate.
Qed.

(** * Further properties *)

(** ** Lists of names in the configuration *)

Lemma parse_waypoints_loop_spec locations name parts : forall res,
  match parse_waypoints_loop locations parts name res with
  | Return ls =>
      exists found, ls = res ++ found
                    /\ Forall2 (fun part l => locations !! part = Some l) parts found
  | Raise e =>
      exists before missing after,
        parts = before ++ missing :: after
        /\ Forall (fun part => is_Some (locations !! part)) before
        /\ locations !! missing = None
        /\ e = ValueError ("Undefined location '" +:+ missing
                           +:+ "' in waypoints list for route '" +:+ name +:+ "'")
  end.
Proof.
  induction parts as [| part rest IH]; intros res; simpl.
  - exists []. split; [now rewrite app_nil_r | constructor].
  - destruct (locations !! part) as [l |] eqn:Hl.
    + specialize (IH (res ++ [l])).
      destruct (parse_waypoints_loop locations rest name (res ++ [l])) as [ls | e].
      * destruct IH as (found & -> & Hf). exists (l :: found).
        split; [now rewrite <- app_assoc | now constructor].
      * destruct IH as (before & missing & after & -> & Hb & Hm & ->).
        exists (part :: before), missing, after.
        split; [reflexivity |]. split; [| auto]. constructor; [| exact Hb].
        rewrite Hl. now eexists.
    + exists [], part, rest. split; [reflexivity |]. split; [constructor | auto].
Qed.

(** Extra: [parse_waypoints] returns the locations the comma-separated names
    stand for in the directory, one per name and in the order of the text
    (spaces removed); when a name is not in the directory it raises a
    [ValueError] that carries the first such name and the route. *)
Theorem parse_waypoints_spec (locations : gmap string Location.t)
    (waypoints name : string) :
  let parts := Str.split "," (Str.remove_spaces waypoints) in
  match parse_waypoints locations waypoints name with
  | Return ls =>
      Forall2 (fun part l => locations !! part = Some l) parts ls /\ ls <> []
  | Raise e =>
      exists before missing after,
        parts = before ++ missing :: after
        /\ Forall (fun part => is_Some (locations !! part)) before
        /\ locations !! missing = None
        /\ e = ValueError ("Undefined location '" +:+ missing
                           +:+ "' in waypoints list for route '" +:+ name +:+ "'")
  end.
Proof.
  intros parts. unfold parse_waypoints. fold parts.
  pose proof (parse_waypoints_loop_spec locations name parts []) as H.
  destruct (parse_waypoints_loop locations parts name []) as [ls | e]; [| exact H].
  destruct H as (found & -> & Hf). simpl. split; [exact Hf |].
  intros ->. inversion Hf as [Hp |]. symmetry in Hp.
  now apply StrFacts.split_not_nil in Hp.
Qed.

Lemma parse_weekdays_loop_days name parts : forall res days,
  parse_weekdays_loop parts name res = Return days <->
  exists found, days = res ++ found
                /\ Forall2 (fun part day => Str.int part = Some day /\ in_week day)
                           parts found.
Proof.
  induction parts as [| part rest IH]; intros res days; simpl.
  - split.
    + intros [= <-]. exists []. split; [now rewrite app_nil_r | constructor].
    + intros (found & -> & Hf). inversion Hf. now rewrite app_nil_r.
  - split.
    + destruct (Str.int part) as [day |] eqn:Hi; [| discriminate].
      destruct (Z.ltb_spec day 0) as [Hlo | Hlo]; [discriminate |].
      destruct (Z.ltb_spec 6 day) as [Hhi | Hhi]; [discriminate |]. simpl.
      intros Hrest. apply IH in Hrest as (found & -> & Hf). exists (day :: found).
      split; [now rewrite <- app_assoc |]. constructor; [| exact Hf].
      split; [exact Hi | unfold in_week; lia].
    + intros (found & -> & Hf). inversion Hf as [| ? day ? found' [Hi Hw] Hf']; subst.
      rewrite Hi. unfold in_week in Hw.
      destruct (Z.ltb_spec day 0); [lia |]. destruct (Z.ltb_spec 6 day); [lia |].
      simpl. apply IH. exists found'. split; [now rewrite <- app_assoc | exact Hf'].
Qed.

(** Extra: [parse_weekdays] succeeds exactly when every comma-separated part
    of the text (spaces removed) is an integer between 0 and 6, and then
    returns those integers, one per part, in the order of the text and with
    repetitions kept. *)
Theorem parse_weekdays_days (weekdays name : string) (days : list Z) :
  parse_weekdays weekdays name = Return days <->
  Forall2 (fun part day => Str.int part = Some day /\ in_week day)
          (Str.split "," (Str.remove_spaces weekdays)) days.
Proof.
  unfold parse_weekdays. rewrite parse_weekdays_loop_days. simpl. split.
  - intros (found & -> & Hf). exact Hf.
  - intros Hf. now exists days.
Qed.

(** ** The route constructor, continued *)

Lemma map_VLocation_inj (l1 : list Location.t) : forall l2,
  map VLocation l1 = map VLocation l2 -> l1 = l2.
Proof.
  induction l1 as [| a l1 IH]; intros [| b l2]; simpl; try discriminate;
    [reflexivity |].
  intros [= -> H]. f_equal. now apply IH.
Qed.

Lemma check_waypoints_Return name wps : forall i wl,
  Route.check_waypoints name i wps = Return wl <-> wps = map VLocation wl.
Proof.
  induction wps as [| v rest IH]; intros i wl; simpl.
  - split; [intros [= <-]; reflexivity |]. destruct wl; [reflexivity | discriminate].
  - destruct v; try (split; [discriminate | destruct wl; discriminate]).
    unfold result_map, result_bind.
    destruct (Route.check_waypoints name (S i) rest) as [wl' |] eqn:Hc.
    + apply IH in Hc as ->. split.
      * intros [= <-]. reflexivity.
      * destruct wl as [| l0 wl]; [discriminate |]. simpl. intros [= -> Hm].
        apply map_VLocation_inj in Hm. now subst.
    + split; [discriminate |]. destruct wl as [| l0 wl]; [discriminate |].
      simpl. intros [= -> Hm].
      apply (IH (S i) wl) in Hm. congruence.
Qed.

Lemma check_waypoints_Raise name wps : forall i k,
  first_not_location wps = Some k ->
  Route.check_waypoints name i wps
  = Raise (TypeError ("Waypoint at index " +:+ pretty (i + k)%nat +:+ " of route '"
                      +:+ name +:+ "' must be a Location instance")).
Proof.
  induction wps as [| v rest IH]; intros i k; simpl; [discriminate |].
  destruct v; try (intros [= <-]; now rewrite Nat.add_0_r).
  destruct (first_not_location rest) as [k' |]; [| discriminate].
  simpl. intros [= <-]. rewrite (IH (S i) k' eq_refl).
  simpl. now rewrite Nat.add_succ_r.
Qed.

Lemma first_not_location_None wps :
  first_not_location wps = None -> exists wl, wps = map VLocation wl.
Proof.
  induction wps as [| v rest IH]; simpl; [now exists [] |].
  destruct v; try discriminate.
  destruct (first_not_location rest); [discriminate |].
  intros _. destruct (IH eq_refl) as [wl ->]. now exists (l :: wl).
Qed.

(** The list the constructor goes through: [waypoints or []]. *)
Lemma Route_init_Return name start_at end_at waypoints probability weekdays r :
  Route.init name start_at end_at waypoints probability weekdays = Return r <->
  exists a b p wl,
    start_at = VLocation a /\ end_at = VLocation b /\ probability = VFloat p
    /\ ((truthy waypoints = false /\ wl = []) \/ waypoints = VList (map VLocation wl))
    /\ r = {| Route.name := name; Route.start_at := a; Route.waypoints := wl;
              Route.end_at := b; Route.probability := p;
              Route.weekdays := match weekdays with
                                | Some ((_ :: _) as ws) => ws
                                | _ => range 8
                                end |}.
Proof.
  unfold Route.init. split.
  - destruct start_at as [| | | | | | a |]; try discriminate.
    destruct (truthy waypoints && _) eqn:Hw; [discriminate |].
    destruct end_at as [| | | | | | b |]; try discriminate.
    destruct probability as [| | p | | | | |]; try discriminate.
    rewrite FloatOrder.not_below_0_and_above_1.
    destruct (Route.check_waypoints _ _ _) as [wl |] eqn:Hc; [| discriminate].
    simpl. intros [= <-]. apply check_waypoints_Return in Hc.
    exists a, b, p, wl. repeat (split; [reflexivity |]). split; [| reflexivity].
    assert (Hnil : [] = map VLocation wl -> wl = [])
      by (destruct wl; [reflexivity | discriminate]).
    destruct waypoints as [| z | f | s | vs | vs | l | t];
      try (left; split; [| now apply Hnil];
           match goal with
           | |- truthy ?w = false =>
               destruct (truthy w); [simpl in Hw; discriminate Hw | reflexivity]
           end).
    destruct vs as [| v vs]; right; [now rewrite (Hnil Hc) | now rewrite Hc].
  - intros (a & b & p & wl & -> & -> & -> & Hw & ->).
    rewrite FloatOrder.not_below_0_and_above_1.
    destruct Hw as [[Hf ->] | ->].
    + rewrite Hf. simpl.
      replace (match waypoints with VList ((_ :: _) as l) => l | _ => [] end)
        with (@nil value); [reflexivity |].
      destruct waypoints as [| | | | | [| v vs] | |]; try reflexivity. discriminate.
    + replace (truthy (VList (map VLocation wl)) && negb true) with false
        by (now rewrite andb_false_r).
      replace (match VList (map VLocation wl) with
               | VList ((_ :: _) as l) => l | _ => []
               end) with (map VLocation wl) by (now destruct wl).
      now rewrite (proj2 (check_waypoints_Return name (map VLocation wl) 0 wl) eq_refl).
Qed.


(** Extra: when the waypoints are a list and some element is not a location,
    [Route.__init__] raises a [TypeError] that carries the index of the first
    such element and the name of the route. *)
Theorem Route_init_bad_waypoint (name : string) (a b : Location.t) (p : float)
    (wps : list value) (weekdays : option (list Z)) (k : nat) :
  first_not_location wps = Some k ->
  Route.init name (VLocation a) (VLocation b) (VList wps) (VFloat p) weekdays
  = Raise (TypeError ("Waypoint at index " +:+ pretty k +:+ " of route '"
                      +:+ name +:+ "' must be a Location instance")).
Proof.
  intros Hk. unfold Route.init.
  replace (truthy (VList wps) && negb true) with false by (now rewrite andb_false_r).
  rewrite FloatOrder.not_below_0_and_above_1.
  replace (match VList wps with VList ((_ :: _) as l) => l | _ => [] end) with wps
    by (destruct wps; [discriminate | reflexivity]).
  now rewrite (check_waypoints_Raise name wps 0 k Hk).
Qed.

Lemma Route_init_bad_waypoint_witness :
  Route.init "out" (VLocation Sample.loc_A) (VLocation Sample.loc_B)
    (VList [VLocation Sample.loc_W; VLocation Sample.loc_C; VStr "D"; VNone])
    (VFloat 1) None
  = Raise (TypeError "Waypoint at index 2 of route 'out' must be a Location instance").
Proof.
  apply (Route_init_bad_waypoint "out" Sample.loc_A Sample.loc_B 1
           [VLocation Sample.loc_W; VLocation Sample.loc_C; VStr "D"; VNone] None 2).
  reflexivity.
Defined.

(** ** Dwell draws, continued *)


(** ** The main loop, continued *)

(** Extra: when the end time is not after the start time, the loop of
    [trace] is not entered: the trace is empty, whatever the routes and the
    location, and nothing is drawn. *)
Theorem trace_empty_window (fuel : nat) (self : TravelTracer) (origin : Location.t)
    (start stop : Z) (g : rand) :
  stop <= start ->
  trace fuel self (VLocation origin) (VDatetime start) (VDatetime stop) g
  = Some (Return []).
Proof.
  intros Hle. unfold trace. simpl.
  destruct fuel; simpl; destruct (Z.ltb_spec start stop); (lia || reflexivity).
Qed.

Lemma trace_empty_window_witness :
  trace 0 Sample.tracer_AB (VLocation Sample.loc_B) (VDatetime Sample.new_year)
    (VDatetime Sample.new_year) Sample.draws
  = Some (Return []).
Proof. apply trace_empty_window. lia. Defined.

(** The points a turn of the loop adds. *)
Lemma trace_body_points self s g s' g' :
  trace_body self s g = Return (s', g') ->
  exists route d0 dwells d1,
    choose_route self (weekday (Tc s)) (Lc s) = Return route
    /\ in_visit_range (Route.start_at route) d0
    /\ Forall2 in_visit_range (Route.waypoints route) dwells
    /\ in_visit_range (Route.end_at route) d1
    /\ points s' =
         points s
         ++ map (pair (Route.start_at route))
                (generate_pings (Route.start_at route) (Tc s) d0)
         ++ waypoint_points (Route.waypoints route) (Tc s + d0) dwells
         ++ map (pair (Route.end_at route))
                (generate_pings (Route.end_at route) (Tc s + d0 + sum_dwells dwells) d1)
    /\ Tc s' = Tc s + d0 + sum_dwells dwells + d1.
Proof.
  unfold trace_body.
  destruct (choose_route self (weekday (Tc s)) (Lc s)) as [route | e]; [| discriminate].
  destruct (random_visit (Route.start_at route) g) as [[d0 g0] | e] eqn:H0;
    [| discriminate].
  destruct (trace_waypoints _ _ _ _) as [[[t pts] g1] | e] eqn:Hw; [| discriminate].
  destruct (random_visit (Route.end_at route) g1) as [[d1 g2] | e] eqn:H1;
    [| discriminate].
  intros [= <- <-]. apply trace_waypoints_spec in Hw as (dwells & Hr & -> & ->).
  apply random_visit_Return in H0, H1.
  exists route, d0, dwells, d1. simpl. rewrite <- !app_assoc. auto 10.
Qed.

Lemma waypoint_points_In wps : forall arrival dwells p,
  In p (waypoint_points wps arrival dwells) -> In (fst p) wps.
Proof.
  induction wps as [| wp rest IH]; intros arrival [| d ds] p; simpl; try tauto.
  intros [<- | Hp]; [now left | right; eauto].
Qed.

Lemma length_waypoint_points wps : forall arrival dwells,
  length dwells = length wps ->
  length (waypoint_points wps arrival dwells) = length wps.
Proof.
  induction wps as [| wp rest IH]; intros arrival [| d ds] Hlen;
    simpl in *; try discriminate; [reflexivity |].
  f_equal. apply IH. lia.
Qed.

Lemma waypoint_points_ge wps : forall arrival dwells,
  Forall2 in_visit_range wps dwells ->
  Forall (fun l => 0 <= fst (Location.visit_time l)) wps ->
  Forall (fun p : point => arrival <= snd p) (waypoint_points wps arrival dwells).
Proof.
  intros arrival dwells Hr. revert arrival.
  induction Hr as [| wp d wps dwells Hd _ IH]; intros arrival Hall; simpl;
    [constructor |].
  inversion Hall; subst. constructor; [simpl; lia |].
  eapply Forall_impl; [apply IH; assumption |].
  intros p Hp. unfold in_visit_range in Hd. simpl in Hp. lia.
Qed.

Section TraceInvariants.

Variable self : TravelTracer.

Lemma trace_body_on_routes s g s' g' :
  trace_body self s g = Return (s', g') ->
  Forall (on_some_route (routes self)) (points s) ->
  Forall (on_some_route (routes self)) (points s').
Proof.
  intros Hbody Hpts.
  apply trace_body_points in Hbody
    as (route & d0 & dwells & d1 & Hc & _ & _ & _ & -> & _).
  apply choose_route_Return, first_best_In in Hc.
  repeat (apply Forall_app; split); try exact Hpts;
    apply List.Forall_forall; intros p Hp; exists route; (split; [exact Hc |]).
  - apply in_map_iff in Hp as (t & <- & _). now left.
  - apply waypoint_points_In in Hp. right. now left.
  - apply in_map_iff in Hp as (t & <- & _). right. now right.
Qed.

Lemma trace_loop_on_routes fuel stop : forall s g pts,
  trace_loop fuel self stop s g = Some (Return pts) ->
  Forall (on_some_route (routes self)) (points s) ->
  Forall (on_some_route (routes self)) pts.
Proof.
  induction fuel as [| fuel IH]; intros s g pts; simpl;
    destruct (Tc s <? stop); try discriminate;
    try (intros [= <-]; auto).
  destruct (trace_body self s g) as [[s1 g1] | e] eqn:Hb; [| discriminate].
  intros H Hpts. eapply IH; [exact H |]. eapply trace_body_on_routes; eauto.
Qed.

Hypothesis valid : valid_routes (routes self).

Lemma trace_body_not_before start s g s' g' :
  trace_body self s g = Return (s', g') ->
  start <= Tc s ->
  Forall (fun p : point => start <= snd p) (points s) ->
  start <= Tc s' /\ Forall (fun p : point => start <= snd p) (points s').
Proof.
  intros Hbody Hstart Hpts.
  apply trace_body_points in Hbody
    as (route & d0 & dwells & d1 & Hc & H0 & Hw & H1 & -> & ->).
  apply choose_route_Return, first_best_In in Hc.
  assert (Hs : valid_visit_time (Route.start_at route))
    by (apply (valid route); [exact Hc | now left]).
  assert (He : valid_visit_time (Route.end_at route))
    by (apply (valid route); [exact Hc | now right; right]).
  assert (Hwps : Forall (fun l => 0 <= fst (Location.visit_time l))
                        (Route.waypoints route)).
  { apply List.Forall_forall. intros wp Hwp.
    apply (valid route wp Hc). right. now left. }
  pose proof (sum_dwells_nonneg _ _ Hw Hwps) as Hsum.
  unfold in_visit_range, valid_visit_time in *.
  split; [lia |].
  repeat (apply Forall_app; split); try exact Hpts.
  - apply List.Forall_forall. intros p Hp.
    apply in_map_iff in Hp as (t & <- & Ht). apply generate_pings_lt in Ht. simpl. lia.
  - eapply Forall_impl; [apply (waypoint_points_ge _ _ _ Hw Hwps) |].
    intros p Hp. simpl in Hp. lia.
  - apply List.Forall_forall. intros p Hp.
    apply in_map_iff in Hp as (t & <- & Ht). apply generate_pings_lt in Ht. simpl. lia.
Qed.

Lemma trace_loop_not_before fuel stop start : forall s g pts,
  trace_loop fuel self stop s g = Some (Return pts) ->
  start <= Tc s ->
  Forall (fun p : point => start <= snd p) (points s) ->
  Forall (fun p : point => start <= snd p) pts.
Proof.
  induction fuel as [| fuel IH]; intros s g pts; simpl;
    destruct (Tc s <? stop); try discriminate;
    try (intros [= <-]; auto).
  destruct (trace_body self s g) as [[s1 g1] | e] eqn:Hb; [| discriminate].
  intros H Hstart Hpts.
  destruct (trace_body_not_before start _ _ _ _ Hb Hstart Hpts) as [Hs1 Hp1].
  eapply IH; eauto.
Qed.

End TraceInvariants.

(** Extra: every point of a trace is at a location that lies on one of the
    routes of the tracer, as its start, one of its waypoints or its end; the
    start location itself appears only if a route has it. *)
Theorem trace_points_on_routes (fuel : nat) (self : TravelTracer)
    (start_at start_time end_time : value) (g : rand) :
  match trace fuel self start_at start_time end_time g with
  | Some (Return pts) => Forall (on_some_route (routes self)) pts
  | _ => True
  end.
Proof.
  destruct (trace fuel self start_at start_time end_time g) as [[pts | e] |] eqn:Ht;
    try exact I.
  unfold trace in Ht.
  destruct start_at; try discriminate. destruct start_time; try discriminate.
  destruct (if negb (truthy end_time) then _ else _); try discriminate.
  eapply trace_loop_on_routes; [exact Ht | constructor].
Qed.

(** Extra: when the dwell ranges of the locations on the routes are
    non-negative with min <= max, no point of the trace is stamped before the
    start time. *)
Theorem trace_not_before_start (fuel : nat) (self : TravelTracer)
    (origin : Location.t) (start : Z) (end_time : value) (g : rand)
    (pts : list point) :
  valid_routes (routes self) ->
  trace fuel self (VLocation origin) (VDatetime start) end_time g = Some (Return pts) ->
  Forall (fun p : point => start <= snd p) pts.
Proof.
  intros Hv Ht. unfold trace in Ht.
  destruct (if negb (truthy end_time) then _ else _); try discriminate.
  eapply (trace_loop_not_before self Hv); [exact Ht | simpl; lia | constructor].
Qed.

Lemma trace_not_before_start_witness :
  Forall (fun p : point => Sample.new_year <= snd p) (points SampleRun.after).
Proof.
  apply (trace_not_before_start 1 Sample.tracer_CWD Sample.loc_C Sample.new_year
           (VDatetime (Sample.new_year + 1)) Sample.draws).
  - exact valid_routes_CWD.
  - vm_compute. reflexivity.
Defined.

(** Extra: a turn of the loop that goes through adds as many points as the
    ceiling of (dwell at the start / 600), plus one per waypoint, plus the
    ceiling of (dwell at the end / 600), the dwells being those drawn in the
    ranges of the start and the end of the chosen route. *)
Theorem trace_body_point_count (self : TravelTracer) (s s' : trace_state)
    (g g' : rand) :
  trace_body self s g = Return (s', g') ->
  exists route d0 d1,
    choose_route self (weekday (Tc s)) (Lc s) = Return route
    /\ in_visit_range (Route.start_at route) d0
    /\ in_visit_range (Route.end_at route) d1
    /\ length (points s')
       = (length (points s) + ping_count d0 + length (Route.waypoints route)
          + ping_count d1)%nat.
Proof.
  intros Hbody.
  apply trace_body_points in Hbody
    as (route & d0 & dwells & d1 & Hc & H0 & Hw & H1 & -> & _).
  exists route, d0, d1. repeat (split; [assumption |]).
  rewrite !length_app, !length_map, !generate_pings_eq, !length_ping_times.
  rewrite length_waypoint_points by (eapply Forall2_length_eq; eauto). lia.
Qed.

Lemma trace_body_point_count_witness :
  exists route d0 d1,
    choose_route Sample.tracer_CWD (weekday (Tc SampleRun.before)) (Lc SampleRun.before)
    = Return route
    /\ in_visit_range (Route.start_at route) d0
    /\ in_visit_range (Route.end_at route) d1
    /\ length (points SampleRun.after)
       = (length (points SampleRun.before) + ping_count d0
          + length (Route.waypoints route) + ping_count d1)%nat.
Proof.
  apply (trace_body_point_count Sample.tracer_CWD SampleRun.before SampleRun.after
           Sample.draws (rand_tail (rand_tail (rand_tail Sample.draws)))).
  vm_compute. reflexivity.
Defined.

(** ** Default weekdays and the days of the calendar *)

Lemma weekday_every_day_8 t : existsb (Z.eqb (weekday t)) (range 8) = true.
Proof.
  assert (Hw : 0 <= weekday t < 7) by (unfold weekday; apply Z.mod_pos_bound; lia).
  apply existsb_exists. exists (weekday t). split; [| apply Z.eqb_refl].
  unfold range. apply in_map_iff. exists (Z.to_nat (weekday t)).
  split; [lia |]. apply in_seq. lia.
Qed.

(** Extra: a route built without [weekdays] is active at every timestamp:
    whether it is eligible depends on the current location only. The eighth
    value, 7, of its default weekdays matches no day of the calendar. *)
Theorem default_weekdays_always_active (name : string)
    (start_at end_at waypoints probability : value) :
  match Route.init name start_at end_at waypoints probability None with
  | Return r =>
      forall t l, eligible (weekday t) l r = Location.eqb (Route.start_at r) l
  | Raise _ => True
  end
  /\ forall t, weekday t <> 7.
Proof.
  split.
  - destruct (Route.init _ _ _ _ _ _) as [r | e] eqn:Hr; [| exact I].
    apply Route_init_weekdays in Hr. intros t l. unfold eligible.
    rewrite Hr, weekday_every_day_8. apply andb_true_r.
  - intros t. pose proof (Z.mod_pos_bound (t / 86400) 7 ltac:(lia)).
    unfold weekday. lia.
Qed.

(** ** Loading a configuration *)

Section ConfigFacts.

Variable float_of : string -> result float.

(** What [load_route] puts in the route it makes. *)
Lemma load_route_Return locations route options r :
  load_route float_of locations route options = Return r ->
  exists start_name end_name,
    options !! "start_at" = Some start_name
    /\ locations !! start_name = Some (Route.start_at r)
    /\ options !! "end_at" = Some end_name
    /\ locations !! end_name = Some (Route.end_at r)
    /\ match options !! "waypoints" with
       | Some text =>
           Forall2 (fun part l => locations !! part = Some l)
                   (Str.split "," (Str.remove_spaces text)) (Route.waypoints r)
       | None => Route.waypoints r = []
       end
    /\ match options !! "probability" with
       | Some text => float_of text = Return (Route.probability r)
       | None => Route.probability r = 1%float
       end
    /\ Route.name r = route.
Proof.
  unfold load_route, config_get, lookup_location.
  destruct (options !! "start_at") as [start_name |]; [| discriminate].
  cbn [result_bind].
  destruct (locations !! start_name) as [a |] eqn:Ha; [| discriminate].
  cbn [result_bind].
  destruct (options !! "end_at") as [end_name |]; [| discriminate].
  cbn [result_bind].
  destruct (locations !! end_name) as [b |] eqn:Hb; [| discriminate].
  cbn [result_bind].
  unfold optional at 1. destruct (options !! "waypoints") as [wtext |].
  - pose proof (parse_waypoints_loop_spec locations route
                  (Str.split "," (Str.remove_spaces wtext)) []) as Hw.
    unfold parse_waypoints.
    destruct (parse_waypoints_loop _ _ _ _) as [wl |]; [| discriminate].
    destruct Hw as (found & -> & Hf). cbn [result_map result_bind app].
    unfold optional at 1. destruct (options !! "probability") as [ptext |].
    + destruct (float_of ptext) as [p |] eqn:Hp; [| discriminate].
      cbn [result_map result_bind].
      destruct (optional options "weekdays" _) as [ws |]; [| discriminate].
      cbn [result_bind]. intros Hr.
      apply Route_init_Return in Hr
        as (a' & b' & p' & wl' & [= <-] & [= <-] & [= <-] & Hwl & ->).
      exists start_name, end_name. simpl. repeat (split; [assumption || reflexivity |]).
      split; [| auto]. destruct Hwl as [[Hfalse ->] | [= Hm]].
      * destruct found; [exact Hf | discriminate].
      * apply map_VLocation_inj in Hm. now subst.
    + cbn [result_bind].
      destruct (optional options "weekdays" _) as [ws |]; [| discriminate].
      cbn [result_bind]. intros Hr.
      apply Route_init_Return in Hr
        as (a' & b' & p' & wl' & [= <-] & [= <-] & [= <-] & Hwl & ->).
      exists start_name, end_name. simpl. repeat (split; [assumption || reflexivity |]).
      split; [| auto]. destruct Hwl as [[Hfalse ->] | [= Hm]].
      * destruct found; [exact Hf | discriminate].
      * apply map_VLocation_inj in Hm. now subst.
  - cbn [result_bind].
    unfold optional at 1. destruct (options !! "probability") as [ptext |].
    + destruct (float_of ptext) as [p |] eqn:Hp; [| discriminate].
      cbn [result_map result_bind].
      destruct (optional options "weekdays" _) as [ws |]; [| discriminate].
      cbn [result_bind]. intros Hr.
      apply Route_init_Return in Hr
        as (a' & b' & p' & wl' & [= <-] & [= <-] & [= <-] & Hwl & ->).
      exists start_name, end_name. simpl. repeat (split; [assumption || reflexivity |]).
      split; [| auto]. destruct Hwl as [[_ ->] | [=]]. reflexivity.
    + cbn [result_bind].
      destruct (optional options "weekdays" _) as [ws |]; [| discriminate].
      cbn [result_bind]. intros Hr.
      apply Route_init_Return in Hr
        as (a' & b' & p' & wl' & [= <-] & [= <-] & [= <-] & Hwl & ->).
      exists start_name, end_name. simpl. repeat (split; [assumption || reflexivity |]).
      split; [| auto]. destruct Hwl as [[_ ->] | [=]]. reflexivity.
Qed.

Lemma load_route_on_route locations route options r l :
  load_route float_of locations route options = Return r ->
  on_route r l -> exists n, locations !! n = Some l.
Proof.
  intros Hr Hl.
  apply load_route_Return in Hr
    as (sn & en & _ & Hs & _ & He & Hw & _ & _).
  destruct Hl as [-> | [Hin | ->]]; [eauto | | eauto].
  destruct (options !! "waypoints") as [text |]; [| rewrite Hw in Hin; destruct Hin].
  remember (Str.split "," (Str.remove_spaces text)) as parts eqn:Hparts.
  clear Hparts. induction Hw as [| part l' parts ls Hp _ IH]; [destruct Hin |].
  destruct Hin as [<- | Hin]; eauto.
Qed.

Lemma load_routes_spec locations route_names : forall acc rs,
  load_routes float_of locations route_names acc = Return rs ->
  exists loaded,
    rs = acc ++ loaded
    /\ Forall2 (fun sec r => load_route float_of locations (fst sec) (snd sec) = Return r)
               route_names loaded.
Proof.
  induction route_names as [| [route options] rest IH]; intros acc rs; simpl.
  - intros [= <-]. exists []. split; [now rewrite app_nil_r | constructor].
  - destruct (load_route float_of locations route options) as [r |] eqn:Hr;
      [| discriminate].
    cbn [result_bind]. intros H. apply IH in H as (loaded & -> & Hf).
    exists (r :: loaded). split; [now rewrite <- app_assoc | now constructor].
Qed.

Lemma directory_ok_insert next locations name l :
  directory_ok next locations ->
  Location.name l = name -> Location.oid l = next ->
  directory_ok (S next) (<[name := l]> locations).
Proof.
  intros [Hname Hinj] Hn Ho. split.
  - intros n l0. rewrite lookup_insert. case_decide as Hd.
    + intros [= <-]. subst. split; [reflexivity | lia].
    + intros H. apply Hname in H as [? ?]. split; [assumption | lia].
  - intros n1 n2 l1 l2. rewrite !lookup_insert.
    case_decide as Hd1; case_decide as Hd2; intros H1 H2 Ho'.
    + congruence.
    + injection H1 as <-. apply Hname in H2 as [_ H2]. lia.
    + injection H2 as <-. apply Hname in H1 as [_ H1]. lia.
    + eapply Hinj; eauto.
Qed.

Lemma load_sections_spec sections : forall locations route_names next locations' names',
  load_sections float_of sections locations route_names next
  = Return (locations', names') ->
  directory_ok next locations ->
  (exists next', directory_ok next' locations')
  /\ names' = route_names ++ route_sections sections
  /\ (forall n, is_Some (locations' !! n) <->
                is_Some (locations !! n) \/ In n (location_section_names sections)).
Proof.
  induction sections as [| [section options] rest IH];
    intros locations route_names next locations' names'; simpl.
  - intros [= <- <-] Hok. split; [eauto |]. split; [now rewrite app_nil_r |].
    intros n. tauto.
  - destruct (startswith section "Location ") eqn:Hloc.
    + destruct (optional options "visit_time" _) as [vt |]; [| discriminate].
      cbn [result_bind].
      destruct (getfloat float_of section options "latitude") as [lat |];
        [| discriminate].
      cbn [result_bind].
      destruct (getfloat float_of section options "longitude") as [lon |];
        [| discriminate].
      cbn [result_bind Location_init]. intros H Hok.
      apply IH in H as (Hok' & -> & Hdom);
        [| now apply directory_ok_insert].
      split; [exact Hok' |]. split; [reflexivity |].
      intros n. rewrite Hdom, lookup_insert. simpl. case_decide as Hd.
      * subst n. split; [intros _; right; now left | intros _; left; now eexists].
      * split; [intros [? | ?]; [now left | right; now right] |].
        intros [? | [? | ?]]; [now left | congruence | now right].
    + destruct (startswith section "Route ").
      * intros H Hok. apply IH in H as (Hok' & -> & Hdom); [| exact Hok].
        split; [exact Hok' |]. split; [now rewrite <- app_assoc | exact Hdom].
      * intros H Hok. now apply IH in H.
Qed.

Lemma load_config_Return config tr :
  load_config float_of config = Return tr ->
  user_id tr = None
  /\ (exists next, directory_ok next (locations tr))
  /\ (forall n, is_Some (locations tr !! n) <-> In n (location_section_names config))
  /\ Forall2 (fun sec r =>
                load_route float_of (locations tr) (fst sec) (snd sec) = Return r)
             (route_sections config) (routes tr).
Proof.
  unfold load_config.
  destruct (load_sections float_of config ∅ [] 0) as [[locs names] |] eqn:Hs;
    [| discriminate].
  cbn [result_bind fst snd].
  destruct (load_routes float_of locs names []) as [rs |] eqn:Hr; [| discriminate].
  cbn [result_bind]. intros [= <-]. simpl.
  apply load_sections_spec in Hs as (Hok & -> & Hdom).
  - apply load_routes_spec in Hr as (loaded & -> & Hf). simpl in *.
    split; [reflexivity |]. split; [exact Hok |]. split; [| exact Hf].
    intros n. rewrite Hdom, lookup_empty. split; [intros [[? [=]] | ?]; assumption | auto].
  - split; [intros n l; rewrite lookup_empty; discriminate |].
    intros n1 n2 l1 l2. rewrite lookup_empty. discriminate.
Qed.

End ConfigFacts.

(** Extra: [load_route] makes a route whose start and end are the directory
    entries of the names under [start_at] and [end_at], whose waypoints are
    the entries of the names of the [waypoints] option, in order (none when
    the option is absent), whose probability is the converted [probability]
    option (1.0 when absent) and whose name is the name of the section. *)
Theorem load_route_fields (float_of : string -> result float)
    (locations : gmap string Location.t) (route : string)
    (options : gmap string string) (r : Route.t) :
  load_route float_of locations route options = Return r ->
  exists start_name end_name,
    options !! "start_at" = Some start_name
    /\ locations !! start_name = Some (Route.start_at r)
    /\ options !! "end_at" = Some end_name
    /\ locations !! end_name = Some (Route.end_at r)
    /\ match options !! "waypoints" with
       | Some text =>
           Forall2 (fun part l => locations !! part = Some l)
                   (Str.split "," (Str.remove_spaces text)) (Route.waypoints r)
       | None => Route.waypoints r = []
       end
    /\ match options !! "probability" with
       | Some text => float_of text = Return (Route.probability r)
       | None => Route.probability r = 1%float
       end
    /\ Route.name r = route.
Proof. apply load_route_Return. Qed.

(** Extra: in a loaded configuration every location on a route (start,
    waypoint or end) is the entry of the directory filed under its own name:
    routes never hold a location that the directory does not. *)
Theorem load_config_routes_closed (float_of : string -> result float)
    (config : list (string * gmap string string)) (tr : TravelTracer) :
  load_config float_of config = Return tr ->
  forall r l, In r (routes tr) -> on_route r l ->
              locations tr !! Location.name l = Some l.
Proof.
  intros Hc r l Hr Hl.
  apply load_config_Return in Hc as (_ & [next [Hname _]] & _ & Hf).
  assert (Hload : exists sec, load_route float_of (locations tr) (fst sec) (snd sec)
                              = Return r).
  { clear -Hf Hr. induction Hf as [| sec r' secs rs Hsec _ IH]; [destruct Hr |].
    destruct Hr as [<- | Hr]; eauto. }
  destruct Hload as [sec Hsec].
  destruct (load_route_on_route _ _ _ _ _ _ Hsec Hl) as [n Hn].
  destruct (Hname _ _ Hn) as [<- _]. exact Hn.
Qed.

(** Extra: a loaded configuration has one route per route section, in the
    order of the sections and under the names of the sections; its directory
    has exactly the names of the location sections; no user is set. *)
Theorem load_config_names (float_of : string -> result float)
    (config : list (string * gmap string string)) (tr : TravelTracer) :
  load_config float_of config = Return tr ->
  map Route.name (routes tr) = map fst (route_sections config)
  /\ (forall n, is_Some (locations tr !! n) <-> In n (location_section_names config))
  /\ user_id tr = None.
Proof.
  intros Hc. apply load_config_Return in Hc as (Hu & _ & Hdom & Hf).
  split; [| auto].
  induction Hf as [| sec r secs rs Hsec _ IH]; [reflexivity |].
  simpl. f_equal; [| exact IH].
  now apply load_route_Return in Hsec as (_ & _ & _ & _ & _ & _ & _ & _ & ->).
Qed.

(** Extra: in a loaded configuration two entries of the directory are the
    same object, as [==] tests it in [choose_route], exactly when they are
    filed under the same name. *)
Theorem load_config_identity (float_of : string -> result float)
    (config : list (string * gmap string string)) (tr : TravelTracer) :
  load_config float_of config = Return tr ->
  forall n1 n2 l1 l2,
    locations tr !! n1 = Some l1 -> locations tr !! n2 = Some l2 ->
    (Location.eqb l1 l2 = true <-> n1 = n2).
Proof.
  intros Hc n1 n2 l1 l2 H1 H2.
  apply load_config_Return in Hc as (_ & [next [_ Hinj]] & _).
  unfold Location.eqb. rewrite Nat.eqb_eq. split.
  - intros Ho. eapply Hinj; eauto.
  - intros ->. congruence.
Qed.

Lemma sample_config_loads :
  load_config SampleConfig.float_of SampleConfig.config = Return SampleConfig.loaded.
Proof. vm_compute. reflexivity. Qed.

Lemma load_route_fields_witness :
  exists start_name end_name,
    SampleConfig.route_back_options !! "start_at" = Some start_name
    /\ locations SampleConfig.loaded !! start_name
       = Some (Route.start_at SampleConfig.route_back)
    /\ SampleConfig.route_back_options !! "end_at" = Some end_name
    /\ locations SampleConfig.loaded !! end_name
       = Some (Route.end_at SampleConfig.route_back)
    /\ match SampleConfig.route_back_options !! "waypoints" with
       | Some text =>
           Forall2 (fun part l => locations SampleConfig.loaded !! part = Some l)
                   (Str.split "," (Str.remove_spaces text))
                   (Route.waypoints SampleConfig.route_back)
       | None => Route.waypoints SampleConfig.route_back = []
       end
    /\ match SampleConfig.route_back_options !! "probability" with
       | Some text =>
           SampleConfig.float_of text = Return (Route.probability SampleConfig.route_back)
       | None => Route.probability SampleConfig.route_back = 1%float
       end
    /\ Route.name SampleConfig.route_back = "back".
Proof.
  apply (load_route_fields SampleConfig.float_of (locations SampleConfig.loaded)
           "back" SampleConfig.route_back_options SampleConfig.route_back).
  vm_compute. reflexivity.
Defined.

Lemma load_config_routes_closed_witness :
  load_config SampleConfig.float_of SampleConfig.config = Return SampleConfig.loaded
  /\ forall r l, In r (routes SampleConfig.loaded) -> on_route r l ->
                 locations SampleConfig.loaded !! Location.name l = Some l.
Proof.
  split; [exact sample_config_loads |].
  exact (load_config_routes_closed SampleConfig.float_of SampleConfig.config
           SampleConfig.loaded sample_config_loads).
Defined.

Lemma load_config_names_witness :
  map Route.name (routes SampleConfig.loaded)
  = map fst (route_sections SampleConfig.config)
  /\ (forall n, is_Some (locations SampleConfig.loaded !! n) <->
                In n (location_section_names SampleConfig.config))
  /\ user_id SampleConfig.loaded = None.
Proof.
  exact (load_config_names SampleConfig.float_of SampleConfig.config
           SampleConfig.loaded sample_config_loads).
Defined.

Lemma load_config_identity_witness :
  load_config SampleConfig.float_of SampleConfig.config = Return SampleConfig.loaded
  /\ forall n1 n2 l1 l2,
       locations SampleConfig.loaded !! n1 = Some l1 ->
       locations SampleConfig.loaded !! n2 = Some l2 ->
       (Location.eqb l1 l2 = true <-> n1 = n2).
Proof.
  split; [exact sample_config_loads |].
  exact (load_config_identity SampleConfig.float_of SampleConfig.config
           SampleConfig.loaded sample_config_loads).
Defined.

(** ** Traces to a later end time *)

Lemma trace_loop_grows self stop fuel : forall s g pts,
  trace_loop fuel self stop s g = Some (Return pts) ->
  exists more, pts = points s ++ more.
Proof.
  induction fuel as [| fuel IH]; intros s g pts; simpl;
    destruct (Tc s <? stop); try discriminate;
    try (intros [= <-]; exists []; now rewrite app_nil_r).
  destruct (trace_body self s g) as [[s1 g1] | e] eqn:Hb; [| discriminate].
  intros H. apply IH in H as (more & ->).
  apply trace_body_points in Hb as (route & d0 & dwells & d1 & _ & _ & _ & _ & -> & _).
  eexists. rewrite <- app_assoc. reflexivity.
Qed.

Lemma trace_loop_later self stop1 stop2 fuel1 : forall fuel2 s g pts1 pts2,
  stop1 <= stop2 ->
  trace_loop fuel1 self stop1 s g = Some (Return pts1) ->
  trace_loop fuel2 self stop2 s g = Some (Return pts2) ->
  exists more, pts2 = pts1 ++ more.
Proof.
  induction fuel1 as [| fuel1 IH]; intros fuel2 s g pts1 pts2 Hle; simpl;
    destruct (Z.ltb_spec (Tc s) stop1) as [Hlt | Hge]; try discriminate;
    try (intros [= <-]; apply trace_loop_grows).
  destruct fuel2 as [| fuel2]; simpl;
    (destruct (Z.ltb_spec (Tc s) stop2); [| lia]); [discriminate |].
  destruct (trace_body self s g) as [[s1 g1] | e]; [| discriminate].
  now apply IH.
Qed.

(** Extra: with the same random draws, the trace to an end time is the
    beginning of the trace to any later end time: moving the end time later
    only adds points at the end. *)
Theorem trace_prefix_of_later (fuel1 fuel2 : nat) (self : TravelTracer)
    (origin : Location.t) (start stop1 stop2 : Z) (g : rand) (pts1 pts2 : list point) :
  stop1 <= stop2 ->
  trace fuel1 self (VLocation origin) (VDatetime start) (VDatetime stop1) g
  = Some (Return pts1) ->
  trace fuel2 self (VLocation origin) (VDatetime start) (VDatetime stop2) g
  = Some (Return pts2) ->
  exists more, pts2 = pts1 ++ more.
Proof. unfold trace. simpl. apply trace_loop_later. Qed.

Lemma trace_prefix_of_later_witness :
  exists more,
    [(SampleConfig.loc_S, Sample.new_year); (SampleConfig.loc_S, Sample.new_year + 600);
     (SampleConfig.loc_S, Sample.new_year + 1200);
     (SampleConfig.loc_S, Sample.new_year + 1800)]
    = [(SampleConfig.loc_S, Sample.new_year); (SampleConfig.loc_S, Sample.new_year + 600)]
      ++ more.
Proof.
  apply (trace_prefix_of_later 1 2 SampleConfig.tracer_SS SampleConfig.loc_S
           Sample.new_year (Sample.new_year + 1) (Sample.new_year + 1201)
           Sample.draws).
  - lia.
  - vm_compute. reflexivity.
  - vm_compute. reflexivity.
Defined.
